(** * verify_lsp: a shallow embedding of the LSP verification harness

    The harness (src/verify_lsp.py) frames JSON-RPC messages with a
    [Content-Length] header, writes them to a language-server subprocess,
    reads framed replies back and waits for a diagnostics notification.

    The embedding has three layers:
    - the pieces of the Python runtime the script calls ([str] and [bytes]
      methods, [int], the UTF-8 codec, the [json] module, buffered reads);
    - the script's three functions, [send_request], [read_response] and
      [main], written in a state-and-exception monad over a [world] that
      holds the subprocess's output, the wall clock and the trace of
      effects;
    - the properties of the framing and of the session driver. *)

From Stdlib Require Import ZArith List Bool Lia String Ascii QArith.
Import ListNotations.
Local Open Scope Z_scope.

(** ** Python values and exceptions *)

(** A Python [str] is a sequence of code points; [bytes] is a sequence of
    octets.  Both are carried by lists of integers. *)
Definition str := list Z.
Definition bytes := list Z.

(** The exceptions the script can meet.  [SystemExit] is what [sys.exit]
    raises.  [OutOfModel] marks the inputs on which the embedding takes no
    position: a number literal with a fraction or an exponent (and the
    constants NaN and Infinity), which Python turns into a float, and a
    non-ASCII character that is not white space handed to [int], where
    CPython consults the Unicode digit table. *)
Inductive exn : Type :=
| ValueError
| TypeError
| KeyError
| IndexError
| JSONDecodeError
| UnicodeDecodeError
| UnicodeEncodeError
| RecursionError
| SystemExit (code : Z)
| OutOfModel.

Inductive result (A : Type) : Type :=
| Ok (a : A)
| Raise (e : exn).
Arguments Ok {A} a.
Arguments Raise {A} e.

Definition rbind {A B : Type} (r : result A) (k : A -> result B) : result B :=
  match r with
  | Ok a => k a
  | Raise e => Raise e
  end.

Declare Scope result_scope.
Delimit Scope result_scope with res.
Notation "x <- c ;; k" := (rbind c (fun x => k))
  (at level 61, c at next level, right associativity) : result_scope.
Notation "' pat <- c ;; k" := (rbind c (fun x => match x with pat => k end))
  (at level 61, pat pattern, c at next level, right associativity) : result_scope.

(** The values [json.loads] can return and [json.dumps] can take, floats
    left out.  A [dict] keeps its keys in insertion order, as Python's
    does. *)
#[local] Unset Elimination Schemes.
Inductive value : Type :=
| VNull
| VBool (b : bool)
| VInt (n : Z)
| VStr (s : str)
| VList (l : list value)
| VDict (d : list (str * value)).
#[local] Set Elimination Schemes.

(** ** Strings *)

(** A source literal, as code points. *)
Definition lit (s : string) : str :=
  map (fun a => Z.of_N (N_of_ascii a)) (list_ascii_of_string s).

Definition CR : Z := 13.
Definition LF : Z := 10.
Definition CRLF : str := [CR; LF].

Fixpoint str_eqb (a b : str) : bool :=
  match a, b with
  | [], [] => true
  | x :: a', y :: b' => (x =? y) && str_eqb a' b'
  | _, _ => false
  end.

(** [str.isspace] on one code point. *)
Definition is_space (c : Z) : bool :=
  ((9 <=? c) && (c <=? 13)) || ((28 <=? c) && (c <=? 32)) ||
  (c =? 133) || (c =? 160) || (c =? 5760) ||
  ((8192 <=? c) && (c <=? 8202)) || (c =? 8232) || (c =? 8233) ||
  (c =? 8239) || (c =? 8287) || (c =? 12288).

Fixpoint lstrip (s : str) : str :=
  match s with
  | c :: s' => if is_space c then lstrip s' else s
  | [] => []
  end.

Definition rstrip (s : str) : str := rev (lstrip (rev s)).

(** [s.strip()] *)
Definition strip (s : str) : str := rstrip (lstrip s).

(** [s.split(sep, 1)] for a one-character separator: the text before the
    first separator and the text after it, or [None] when there is no
    separator (Python then returns the one-element list [[s]]). *)
Fixpoint split1 (sep : Z) (s : str) : option (str * str) :=
  match s with
  | [] => None
  | c :: s' =>
      if c =? sep then Some ([], s')
      else match split1 sep s' with
           | Some (a, b) => Some (c :: a, b)
           | None => None
           end
  end.

Fixpoint startswith (p s : str) : bool :=
  match p, s with
  | [], _ => true
  | x :: p', y :: s' => (x =? y) && startswith p' s'
  | _ :: _, [] => false
  end.

(** [p in s] for two strings. *)
Fixpoint substring (p s : str) : bool :=
  startswith p s ||
  match s with
  | [] => false
  | _ :: s' => substring p s'
  end.

(** ** Integers and text *)

Definition is_digit (c : Z) : bool := (48 <=? c) && (c <=? 57).

Definition dec_step (a c : Z) : Z := 10 * a + (c - 48).

(** The number a run of decimal digits denotes. *)
Definition dec_value (ds : str) : Z := fold_left dec_step ds 0.

Fixpoint digits_acc (fuel : nat) (n : Z) (acc : str) : str :=
  match fuel with
  | O => acc
  | S k =>
      let acc' := (48 + n mod 10) :: acc in
      if n / 10 =? 0 then acc' else digits_acc k (n / 10) acc'
  end.

(** The decimal digits of a natural number, no leading zero. *)
Definition decimal (n : Z) : str :=
  digits_acc (S (Z.to_nat (Z.log2 n))) n [].

(** [str(n)], [repr(n)] and the [{n}] of an f-string, for an [int]. *)
Definition int_repr (n : Z) : str :=
  if n <? 0 then 45 :: decimal (- n) else decimal n.

(** White space as [int] sees it: the ASCII characters of C's [isspace],
    and the non-ASCII white space that CPython first maps to a blank. *)
Definition is_int_space (c : Z) : bool :=
  ((9 <=? c) && (c <=? 13)) || (c =? 32) || ((128 <=? c) && is_space c).

Fixpoint skip_int_space (s : str) : str :=
  match s with
  | c :: s' => if is_int_space c then skip_int_space s' else s
  | [] => []
  end.

(** Digits with single underscores between them, up to the first character
    that continues neither; [prev_digit] tells whether the character before
    was a digit.  Returns the digits read and the rest, or [None] when an
    underscore is not between two digits. *)
Fixpoint int_digits (prev_digit : bool) (s : str) (acc : str) : option (str * str) :=
  match s with
  | [] => if prev_digit then Some (rev acc, []) else None
  | c :: s' =>
      if is_digit c then int_digits true s' (c :: acc)
      else if c =? 95 then
        if prev_digit then
          match s' with
          | d :: _ => if is_digit d then int_digits false s' acc else None
          | [] => None
          end
        else None
      else if prev_digit then Some (rev acc, s) else None
  end.

(** [int(s)] for a [str]. *)
Definition py_int (s : str) : result Z :=
  if existsb (fun c => (128 <=? c) && negb (is_space c)) s then Raise OutOfModel
  else
    let s1 := skip_int_space s in
    let '(neg, s2) :=
      match s1 with
      | c :: r => if c =? 45 then (true, r) else if c =? 43 then (false, r) else (false, s1)
      | [] => (false, s1)
      end in
    match s2 with
    | c :: _ =>
        if is_digit c then
          match int_digits false s2 [] with
          | Some (ds, rest) =>
              match skip_int_space rest with
              | [] => Ok (if neg then - dec_value ds else dec_value ds)
              | _ :: _ => Raise ValueError
              end
          | None => Raise ValueError
          end
        else Raise ValueError
    | [] => Raise ValueError
    end.

(** ** UTF-8 *)

Definition is_cont (b : Z) : bool := (128 <=? b) && (b <=? 191).

Definition in_range (lo hi b : Z) : bool := (lo <=? b) && (b <=? hi).

(** [b.decode('utf-8')]: the strict decoder, which refuses overlong forms,
    surrogates and code points above U+10FFFF. *)
Fixpoint utf8_decode (b : bytes) : result str :=
  match b with
  | [] => Ok []
  | b0 :: r0 =>
      if in_range 0 127 b0 then
        match utf8_decode r0 with Ok s => Ok (b0 :: s) | Raise e => Raise e end
      else if in_range 194 223 b0 then
        match r0 with
        | b1 :: r1 =>
            if is_cont b1 then
              match utf8_decode r1 with
              | Ok s => Ok (Z.lor (Z.shiftl (Z.land b0 31) 6) (Z.land b1 63) :: s)
              | Raise e => Raise e
              end
            else Raise UnicodeDecodeError
        | _ => Raise UnicodeDecodeError
        end
      else if in_range 224 239 b0 then
        match r0 with
        | b1 :: b2 :: r2 =>
            if in_range (if b0 =? 224 then 160 else 128)
                        (if b0 =? 237 then 159 else 191) b1 && is_cont b2 then
              match utf8_decode r2 with
              | Ok s =>
                  Ok (Z.lor (Z.shiftl (Z.land b0 15) 12)
                        (Z.lor (Z.shiftl (Z.land b1 63) 6) (Z.land b2 63)) :: s)
              | Raise e => Raise e
              end
            else Raise UnicodeDecodeError
        | _ => Raise UnicodeDecodeError
        end
      else if in_range 240 244 b0 then
        match r0 with
        | b1 :: b2 :: b3 :: r3 =>
            if in_range (if b0 =? 240 then 144 else 128)
                        (if b0 =? 244 then 143 else 191) b1
               && is_cont b2 && is_cont b3 then
              match utf8_decode r3 with
              | Ok s =>
                  Ok (Z.lor (Z.shiftl (Z.land b0 7) 18)
                        (Z.lor (Z.shiftl (Z.land b1 63) 12)
                           (Z.lor (Z.shiftl (Z.land b2 63) 6) (Z.land b3 63))) :: s)
              | Raise e => Raise e
              end
            else Raise UnicodeDecodeError
        | _ => Raise UnicodeDecodeError
        end
      else Raise UnicodeDecodeError
  end.

Definition is_surrogate (c : Z) : bool := in_range 55296 57343 c.

Definition utf8_encode1 (c : Z) : option bytes :=
  if in_range 0 127 c then Some [c]
  else if in_range 128 2047 c then
    Some [Z.lor 192 (Z.shiftr c 6); Z.lor 128 (Z.land c 63)]
  else if is_surrogate c then None
  else if in_range 2048 65535 c then
    Some [Z.lor 224 (Z.shiftr c 12);
          Z.lor 128 (Z.land (Z.shiftr c 6) 63);
          Z.lor 128 (Z.land c 63)]
  else if in_range 65536 1114111 c then
    Some [Z.lor 240 (Z.shiftr c 18);
          Z.lor 128 (Z.land (Z.shiftr c 12) 63);
          Z.lor 128 (Z.land (Z.shiftr c 6) 63);
          Z.lor 128 (Z.land c 63)]
  else None.

(** [s.encode('utf-8')]: a surrogate cannot be encoded. *)
Fixpoint utf8_encode (s : str) : result bytes :=
  match s with
  | [] => Ok []
  | c :: s' =>
      match utf8_encode1 c with
      | Some bs =>
          match utf8_encode s' with
          | Ok r => Ok (bs ++ r)
          | Raise e => Raise e
          end
      | None => Raise UnicodeEncodeError
      end
  end.

(** ** Dictionaries *)

Fixpoint dict_get {A : Type} (k : str) (d : list (str * A)) : option A :=
  match d with
  | [] => None
  | (k', v) :: d' => if str_eqb k k' then Some v else dict_get k d'
  end.

Definition dict_mem {A : Type} (k : str) (d : list (str * A)) : bool :=
  match dict_get k d with Some _ => true | None => false end.

(** [d[k] = v]: a key already there keeps its place. *)
Fixpoint dict_set {A : Type} (k : str) (v : A) (d : list (str * A)) : list (str * A) :=
  match d with
  | [] => [(k, v)]
  | (k', v') :: d' =>
      if str_eqb k k' then (k, v) :: d' else (k', v') :: dict_set k v d'
  end.

(** ** json.dumps *)

Definition hex_digit (n : Z) : Z := if n <? 10 then 48 + n else 87 + n.

(** Four lower-case hexadecimal digits. *)
Definition hex4 (c : Z) : str :=
  [hex_digit (Z.land (Z.shiftr c 12) 15); hex_digit (Z.land (Z.shiftr c 8) 15);
   hex_digit (Z.land (Z.shiftr c 4) 15); hex_digit (Z.land c 15)].

Definition u_escape (c : Z) : str := 92 :: 117 :: hex4 c.

(** What one character of a string becomes under [ensure_ascii=True], the
    default: the short escapes, printable ASCII as it is, and a [\uXXXX]
    escape (a surrogate pair above U+FFFF) for everything else. *)
Definition escape_char (c : Z) : str :=
  if c =? 34 then [92; 34]
  else if c =? 92 then [92; 92]
  else if c =? 10 then [92; 110]
  else if c =? 13 then [92; 114]
  else if c =? 9 then [92; 116]
  else if c =? 12 then [92; 102]
  else if c =? 8 then [92; 98]
  else if in_range 32 126 c then [c]
  else if c <? 65536 then u_escape c
  else
    let v := c - 65536 in
    u_escape (Z.lor 55296 (Z.land (Z.shiftr v 10) 1023)) ++
    u_escape (Z.lor 56320 (Z.land v 1023)).

Definition encode_basestring_ascii (s : str) : str :=
  34 :: flat_map escape_char s ++ [34].

(** [sep.join(parts)] *)
Fixpoint join (sep : str) (parts : list str) : str :=
  match parts with
  | [] => []
  | [p] => p
  | p :: rest => p ++ sep ++ join sep rest
  end.

(** [json.dumps(v)] with the default options: [", "] between items and
    [": "] after a key. *)
Fixpoint dumps (v : value) : str :=
  match v with
  | VNull => lit "null"
  | VBool true => lit "true"
  | VBool false => lit "false"
  | VInt n => int_repr n
  | VStr s => encode_basestring_ascii s
  | VList l => 91 :: join (lit ", ") (map dumps l) ++ [93]
  | VDict d =>
      123 :: join (lit ", ")
               (map (fun kv => encode_basestring_ascii (fst kv) ++ lit ": " ++ dumps (snd kv)) d)
          ++ [125]
  end.

(** ** json.loads *)

Definition is_json_ws (c : Z) : bool :=
  (c =? 32) || (c =? 9) || (c =? 10) || (c =? 13).

Fixpoint skip_ws (s : str) : str :=
  match s with
  | c :: s' => if is_json_ws c then skip_ws s' else s
  | [] => []
  end.

Definition hex_value (c : Z) : option Z :=
  if in_range 48 57 c then Some (c - 48)
  else if in_range 97 102 c then Some (c - 87)
  else if in_range 65 70 c then Some (c - 55)
  else None.

Definition hex4_value (a b c d : Z) : option Z :=
  match hex_value a, hex_value b, hex_value c, hex_value d with
  | Some x, Some y, Some z, Some w =>
      Some (Z.lor (Z.shiftl (Z.lor (Z.shiftl (Z.lor (Z.shiftl x 4) y) 4) z) 4) w)
  | _, _, _, _ => None
  end.

Definition is_high_surrogate (c : Z) : bool := in_range 55296 56319 c.
Definition is_low_surrogate (c : Z) : bool := in_range 56320 57343 c.

Definition join_surrogates (hi lo : Z) : Z :=
  Z.lor (Z.shiftl (Z.land hi 1023) 10) (Z.land lo 1023) + 65536.

Definition unescape (c : Z) : option Z :=
  if c =? 34 then Some 34
  else if c =? 92 then Some 92
  else if c =? 47 then Some 47
  else if c =? 98 then Some 8
  else if c =? 102 then Some 12
  else if c =? 110 then Some 10
  else if c =? 114 then Some 13
  else if c =? 116 then Some 9
  else None.

(** The scanner of a string literal, entered after the opening quote:
    the decoded text and what follows the closing quote.  A control
    character, an unknown escape, a bad [\uXXXX] and a missing closing
    quote are all [JSONDecodeError]s. *)
Fixpoint scanstring (s : str) (acc : str) : result (str * str) :=
  match s with
  | [] => Raise JSONDecodeError
  | c :: s1 =>
      if c =? 34 then Ok (rev acc, s1)
      else if c =? 92 then
        match s1 with
        | [] => Raise JSONDecodeError
        | e :: s2 =>
            if e =? 117 then
              match s2 with
              | h1 :: h2 :: h3 :: h4 :: s3 =>
                  match hex4_value h1 h2 h3 h4 with
                  | None => Raise JSONDecodeError
                  | Some uni =>
                      if is_high_surrogate uni then
                        match s3 with
                        | b :: u :: k1 :: k2 :: k3 :: k4 :: s4 =>
                            if (b =? 92) && (u =? 117) then
                              match hex4_value k1 k2 k3 k4 with
                              | None => Raise JSONDecodeError
                              | Some uni2 =>
                                  if is_low_surrogate uni2
                                  then scanstring s4 (join_surrogates uni uni2 :: acc)
                                  else scanstring s3 (uni :: acc)
                              end
                            else scanstring s3 (uni :: acc)
                        | _ => scanstring s3 (uni :: acc)
                        end
                      else scanstring s3 (uni :: acc)
                  end
              | _ => Raise JSONDecodeError
              end
            else
              match unescape e with
              | Some ch => scanstring s2 (ch :: acc)
              | None => Raise JSONDecodeError
              end
        end
      else if c <? 32 then Raise JSONDecodeError
      else scanstring s1 (c :: acc)
  end.

Fixpoint span_digits (s : str) : str * str :=
  match s with
  | c :: s' =>
      if is_digit c then let '(ds, r) := span_digits s' in (c :: ds, r)
      else ([], s)
  | [] => ([], [])
  end.

(** Does a fraction ([.] and a digit) or an exponent ([e] or [E], an
    optional sign, a digit) follow the integer part? *)
Definition float_follows (r : str) : bool :=
  match r with
  | c :: r1 =>
      if c =? 46 then
        match r1 with d :: _ => is_digit d | [] => false end
      else if (c =? 101) || (c =? 69) then
        match r1 with
        | d :: r2 =>
            is_digit d ||
            (((d =? 43) || (d =? 45)) &&
             match r2 with d2 :: _ => is_digit d2 | [] => false end)
        | [] => false
        end
      else false
  | [] => false
  end.

(** A number: an optional minus, then [0] or a digit run that does not
    start with [0]. *)
Definition match_number (s : str) : result (value * str) :=
  let '(neg, s1) :=
    match s with
    | c :: r => if c =? 45 then (true, r) else (false, s)
    | [] => (false, s)
    end in
  match s1 with
  | [] => Raise JSONDecodeError
  | c :: r =>
      let '(ds, r') :=
        if in_range 49 57 c then let '(ds, r') := span_digits r in (c :: ds, r')
        else ([c], r) in
      if in_range 48 57 c then
        if float_follows r' then Raise OutOfModel
        else Ok (VInt (if neg then - dec_value ds else dec_value ds), r')
      else Raise JSONDecodeError
  end.

(** [dict(pairs)]: later pairs overwrite earlier ones with the same key. *)
Definition dict_of_pairs (pairs : list (str * value)) : list (str * value) :=
  fold_left (fun d kv => dict_set (fst kv) (snd kv) d) pairs [].

(** The scanner.  [None] means the recursion budget [fuel] ran out;
    [json_loads] below gives a budget that never does. *)
Fixpoint scan_once (fuel : nat) (s : str) {struct fuel}
  : option (result (value * str)) :=
  match fuel with
  | O => None
  | S f =>
      match s with
      | [] => Some (Raise JSONDecodeError)
      | c :: s' =>
          if c =? 34 then
            Some (match scanstring s' [] with
                  | Ok (t, r) => Ok (VStr t, r)
                  | Raise e => Raise e
                  end)
          else if c =? 123 then
            match skip_ws s' with
            | c1 :: r1 =>
                if c1 =? 125 then Some (Ok (VDict [], r1))
                else
                  match object_items f (skip_ws s') with
                  | Some (Ok (pairs, r)) => Some (Ok (VDict (dict_of_pairs pairs), r))
                  | Some (Raise e) => Some (Raise e)
                  | None => None
                  end
            | [] => Some (Raise JSONDecodeError)
            end
          else if c =? 91 then
            match skip_ws s' with
            | c1 :: r1 =>
                if c1 =? 93 then Some (Ok (VList [], r1))
                else
                  match array_items f (skip_ws s') with
                  | Some (Ok (vs, r)) => Some (Ok (VList vs, r))
                  | Some (Raise e) => Some (Raise e)
                  | None => None
                  end
            | [] => Some (Raise JSONDecodeError)
            end
          else if startswith (lit "null") s then Some (Ok (VNull, skipn 4 s))
          else if startswith (lit "true") s then Some (Ok (VBool true, skipn 4 s))
          else if startswith (lit "false") s then Some (Ok (VBool false, skipn 5 s))
          else if startswith (lit "NaN") s || startswith (lit "Infinity") s
                  || startswith (lit "-Infinity") s then Some (Raise OutOfModel)
          else Some (match_number s)
      end
  end

with array_items (fuel : nat) (s : str) {struct fuel}
  : option (result (list value * str)) :=
  match fuel with
  | O => None
  | S f =>
      match scan_once f s with
      | None => None
      | Some (Raise e) => Some (Raise e)
      | Some (Ok (v, r)) =>
          match skip_ws r with
          | c :: r' =>
              if c =? 93 then Some (Ok ([v], r'))
              else if c =? 44 then
                match array_items f (skip_ws r') with
                | Some (Ok (vs, r'')) => Some (Ok (v :: vs, r''))
                | other => other
                end
              else Some (Raise JSONDecodeError)
          | [] => Some (Raise JSONDecodeError)
          end
      end
  end

with object_items (fuel : nat) (s : str) {struct fuel}
  : option (result (list (str * value) * str)) :=
  match fuel with
  | O => None
  | S f =>
      match s with
      | c :: s' =>
          if c =? 34 then
            match scanstring s' [] with
            | Raise e => Some (Raise e)
            | Ok (k, r) =>
                match skip_ws r with
                | c1 :: r1 =>
                    if c1 =? 58 then
                      match scan_once f (skip_ws r1) with
                      | None => None
                      | Some (Raise e) => Some (Raise e)
                      | Some (Ok (v, r2)) =>
                          match skip_ws r2 with
                          | c2 :: r3 =>
                              if c2 =? 125 then Some (Ok ([(k, v)], r3))
                              else if c2 =? 44 then
                                match object_items f (skip_ws r3) with
                                | Some (Ok (kvs, r4)) => Some (Ok ((k, v) :: kvs, r4))
                                | other => other
                                end
                              else Some (Raise JSONDecodeError)
                          | [] => Some (Raise JSONDecodeError)
                          end
                      end
                    else Some (Raise JSONDecodeError)
                | [] => Some (Raise JSONDecodeError)
                end
            end
          else Some (Raise JSONDecodeError)
      | [] => Some (Raise JSONDecodeError)
      end
  end.

(** [json.loads(s)] for a [str]: white space may surround the value, a
    byte-order mark may not start the text, and nothing may follow. *)
Definition json_loads (s : str) : result value :=
  if startswith [65279] s then Raise JSONDecodeError
  else
    match scan_once (2 * List.length s + 2) (skip_ws s) with
    | None => Raise RecursionError
    | Some (Raise e) => Raise e
    | Some (Ok (v, r)) =>
        match skip_ws r with
        | [] => Ok v
        | _ :: _ => Raise JSONDecodeError
        end
    end.

(** ** The dynamic operations the driver applies to a decoded message *)

(** [bool(v)] *)
Definition truthy (v : value) : bool :=
  match v with
  | VNull => false
  | VBool b => b
  | VInt n => negb (n =? 0)
  | VStr [] => false
  | VList [] => false
  | VDict [] => false
  | _ => true
  end.

(** [v == s] for a string [s]. *)
Definition eq_str (v : value) (s : str) : bool :=
  match v with
  | VStr t => str_eqb t s
  | _ => false
  end.

(** [s in c] for a string [s]: a substring test on a string, a membership
    test on a list, a key test on a dict, a [TypeError] on anything else. *)
Definition contains_str (s : str) (c : value) : result bool :=
  match c with
  | VStr t => Ok (substring s t)
  | VList l => Ok (existsb (fun x => eq_str x s) l)
  | VDict d => Ok (dict_mem s d)
  | _ => Raise TypeError
  end.

(** [c[k]] for a string [k]. *)
Definition getitem_str (c : value) (k : str) : result value :=
  match c with
  | VDict d =>
      match dict_get k d with
      | Some v => Ok v
      | None => Raise KeyError
      end
  | _ => Raise TypeError
  end.

(** [len(c)] *)
Definition py_len (c : value) : result Z :=
  match c with
  | VStr t => Ok (Z.of_nat (List.length t))
  | VList l => Ok (Z.of_nat (List.length l))
  | VDict d => Ok (Z.of_nat (List.length d))
  | _ => Raise TypeError
  end.

(** [c[0]]: the first element of a list, the first character of a string;
    a dict decoded from JSON has string keys only, so [0] is not one. *)
Definition getitem_0 (c : value) : result value :=
  match c with
  | VList (x :: _) => Ok x
  | VList [] => Raise IndexError
  | VStr (x :: _) => Ok (VStr [x])
  | VStr [] => Raise IndexError
  | VDict _ => Raise KeyError
  | _ => Raise TypeError
  end.

(** ** The world: subprocess, clock and trace *)

(** What the harness does to its surroundings, in order. *)
Inductive event : Type :=
| Spawn (path : string)
| Print (text : string) (arg : option value)
| Write (data : bytes)
| Flush
| Readline (data : bytes)
| Read (n : Z) (data : bytes)
| Time (t : Q)
| Terminate.

(** [stdout] is what the subprocess has still to write on its standard
    output before it closes it; the [k]-th call of [time.time()] returns
    [clock k]. *)
Record world : Type := mkWorld {
  stdout : bytes;
  clock : nat -> Q;
  ticks : nat;
  trace : list event
}.

Definition emit (e : event) (w : world) : world :=
  mkWorld (stdout w) (clock w) (ticks w) (trace w ++ [e]).

(** Computations: [None] when a loop was cut by its iteration budget,
    otherwise a value or an exception, and the world after. *)
Definition M (A : Type) : Type := world -> option (result A * world).

Definition ret {A : Type} (a : A) : M A := fun w => Some (Ok a, w).
Definition raise {A : Type} (e : exn) : M A := fun w => Some (Raise e, w).
Definition lift {A : Type} (r : result A) : M A := fun w => Some (r, w).

Definition bind {A B : Type} (m : M A) (k : A -> M B) : M B :=
  fun w =>
    match m w with
    | None => None
    | Some (Raise e, w') => Some (Raise e, w')
    | Some (Ok a, w') => k a w'
    end.

Declare Scope io_scope.
Delimit Scope io_scope with io.
Notation "x <- c ;; k" := (bind c (fun x => k))
  (at level 61, c at next level, right associativity) : io_scope.
Notation "c ;; k" := (bind c (fun _ => k))
  (at level 61, right associativity) : io_scope.
Local Open Scope io_scope.

Definition print (text : string) (arg : option value) : M unit :=
  fun w => Some (Ok tt, emit (Print text arg) w).

(** [subprocess.Popen([path], ...)] *)
Definition popen (path : string) : M unit :=
  fun w => Some (Ok tt, emit (Spawn path) w).

(** [proc.stdin.write(data)] and [proc.stdin.flush()] *)
Definition write (data : bytes) : M unit :=
  fun w => Some (Ok tt, emit (Write data) w).
Definition flush : M unit :=
  fun w => Some (Ok tt, emit Flush w).

(** A line and what follows it: the line ends with its line feed, or is
    all that is left when there is none. *)
Fixpoint take_line (s : bytes) : bytes * bytes :=
  match s with
  | [] => ([], [])
  | b :: s' =>
      if b =? LF then ([b], s')
      else let '(l, r) := take_line s' in (b :: l, r)
  end.

(** [proc.stdout.readline()] *)
Definition readline : M bytes :=
  fun w =>
    let '(l, r) := take_line (stdout w) in
    Some (Ok l, emit (Readline l) (mkWorld r (clock w) (ticks w) (trace w))).

(** [proc.stdout.read(n)]: [n] bytes, fewer when the stream ends first;
    everything for [-1]; other negative sizes are refused. *)
Definition read (n : Z) : M bytes :=
  fun w =>
    if n <? -1 then Some (Raise ValueError, w)
    else
      let k := if n =? -1 then List.length (stdout w) else Z.to_nat n in
      let data := firstn k (stdout w) in
      Some (Ok data,
            emit (Read n data) (mkWorld (skipn k (stdout w)) (clock w) (ticks w) (trace w))).

(** [time.time()] *)
Definition time_time : M Q :=
  fun w =>
    let t := clock w (ticks w) in
    Some (Ok t, emit (Time t) (mkWorld (stdout w) (clock w) (S (ticks w)) (trace w))).

(** [proc.terminate()] *)
Definition terminate : M unit :=
  fun w => Some (Ok tt, emit Terminate w).

(** [sys.exit(code)] *)
Definition sys_exit {A : Type} (code : Z) : M A := raise (SystemExit code).

Definition Qltb (a b : Q) : bool :=
  (Qnum a * Zpos (Qden b) <? Qnum b * Zpos (Qden a))%Z.

(** ** The script *)

Definition is_none (v : value) : bool :=
  match v with VNull => true | _ => false end.

(** [send_request(proc, method, params, id=None)] *)
Definition send_request (method : str) (params : value) (id : value) : M unit :=
  let content :=
    [(lit "jsonrpc", VStr (lit "2.0"));
     (lit "method", VStr method);
     (lit "params", params)] in
  let content :=
    if negb (is_none id) then dict_set (lit "id") id content else content in
  let body := dumps (VDict content) in
  let message :=
    lit "Content-Length: " ++ int_repr (Z.of_nat (List.length body))
      ++ CRLF ++ CRLF ++ body in
  data <- lift (utf8_encode message) ;;
  write data ;;
  flush.

(** The [while True] loop of [read_response], with an iteration budget. *)
Fixpoint read_headers (fuel : nat) (headers : list (str * str)) : M (list (str * str)) :=
  match fuel with
  | O => fun _ => None
  | S k =>
      raw <- readline ;;
      line <- lift (utf8_decode raw) ;;
      match line with
      | [] => ret headers
      | _ :: _ =>
          if str_eqb line CRLF then ret headers
          else
            match split1 58 line with
            | None => raise ValueError
            | Some (key, value) =>
                read_headers k (dict_set (strip key) (strip value) headers)
            end
      end
  end.

(** [read_response(proc)].  Every turn of the header loop but the last
    takes at least one byte off the stream, so the budget given here is
    never exhausted. *)
Definition read_response : M value :=
  headers <- (fun w => read_headers (S (List.length (stdout w))) [] w) ;;
  match dict_get (lit "Content-Length") headers with
  | None => ret VNull
  | Some text =>
      length <- lift (py_int text) ;;
      raw <- read length ;;
      body <- lift (utf8_decode raw) ;;
      lift (json_loads body)
  end.

Definition lsp_path : string := "../../target/debug/lex-lsp".

Definition initialize_params : value :=
  VDict [(lit "processId", VNull);
         (lit "rootUri", VNull);
         (lit "capabilities", VDict [])].

Definition did_open_params : value :=
  VDict [(lit "textDocument",
          VDict [(lit "uri", VStr (lit "file:///test.lex"));
                 (lit "languageId", VStr (lit "lex"));
                 (lit "version", VInt 1);
                 (lit "text", VStr (lit "Helllo World"))])].

Definition publish_method : str := lit "textDocument/publishDiagnostics".
Definition expected_text : str := lit "Unknown word: Helllo".

(** The test at the head of the loop body:
    [resp and 'method' in resp and resp['method'] == '...']. *)
Definition is_publish (resp : value) : result bool :=
  if truthy resp then
    (has <- contains_str (lit "method") resp ;;
     if (has : bool) then
       (m <- getitem_str resp (lit "method") ;;
        Ok (eq_str m publish_method))
     else Ok false)%res
  else Ok false.

(** What the loop body does with one received message. *)
Definition handle (resp : value) : M unit :=
  hit <- lift (is_publish resp) ;;
  if (hit : bool) then
    print "Received diagnostics:" (Some resp) ;;
    params <- lift (getitem_str resp (lit "params")) ;;
    diags <- lift (getitem_str params (lit "diagnostics")) ;;
    n <- lift (py_len diags) ;;
    if n >? 0 then
      d0 <- lift (getitem_0 diags) ;;
      msg <- lift (getitem_str d0 (lit "message")) ;;
      found <- lift (contains_str expected_text msg) ;;
      if (found : bool) then
        print "SUCCESS: Found expected diagnostic!" None ;;
        terminate ;;
        sys_exit 0
      else
        print "FAILURE: Unexpected diagnostic message: " (Some msg) ;;
        terminate ;;
        sys_exit 1
    else ret tt
  else ret tt.

(** The wait loop, [while time.time() - start_time < 5], with an
    iteration budget. *)
Fixpoint wait_loop (fuel : nat) (start_time : Q) : M unit :=
  match fuel with
  | O => fun _ => None
  | S k =>
      now <- time_time ;;
      if Qltb (now - start_time) 5 then
        resp <- read_response ;;
        handle resp ;;
        wait_loop k start_time
      else ret tt
  end.

(** [main()] *)
Definition main (fuel : nat) : M unit :=
  print "Starting LSP from " (Some (VStr (lit lsp_path))) ;;
  popen lsp_path ;;
  print "Sending initialize..." None ;;
  send_request (lit "initialize") initialize_params (VInt 1) ;;
  resp <- read_response ;;
  print "Initialize response:" (Some resp) ;;
  send_request (lit "initialized") (VDict []) VNull ;;
  print "Opening document..." None ;;
  send_request (lit "textDocument/didOpen") did_open_params VNull ;;
  print "Waiting for diagnostics..." None ;;
  start_time <- time_time ;;
  wait_loop fuel start_time ;;
  print "FAILURE: Timed out waiting for diagnostics" None ;;
  terminate ;;
  sys_exit 1.

(** The status the interpreter exits with: the code of [sys.exit], and 1
    after an uncaught exception. *)
Definition exit_status {A : Type} (r : result A) : Z :=
  match r with
  | Ok _ => 0
  | Raise (SystemExit code) => code
  | Raise _ => 1
  end.

(** A world at the start of a run. *)
Definition initial (out : bytes) (clk : nat -> Q) : world := mkWorld out clk 0 [].

(** * Vocabulary of the properties *)

(** Text made of ASCII characters only. *)
Definition is_ascii (s : list Z) : bool := forallb (in_range 0 127) s.

(** ASCII lower-casing, to compare field names without regard to case. *)
Definition lower (s : str) : str :=
  map (fun c => if in_range 65 90 c then c + 32 else c) s.

Definition eq_nocase (a b : str) : bool := str_eqb (lower a) (lower b).

(** A string [json.loads] gives back as it was: code points of Unicode,
    and no high surrogate directly before a low one (the decoder reads the
    two escapes of such a pair as one character). *)
Fixpoint no_surrogate_pair (s : str) : bool :=
  match s with
  | c :: s' =>
      match s' with
      | d :: _ => negb (is_high_surrogate c && is_low_surrogate d)
      | [] => true
      end && no_surrogate_pair s'
  | [] => true
  end.

Definition text_ok (s : str) : bool :=
  forallb (in_range 0 1114111) s && no_surrogate_pair s.

(** The keys of a Python dict are pairwise different. *)
Fixpoint distinct_keys {A : Type} (d : list (str * A)) : bool :=
  match d with
  | [] => true
  | (k, _) :: d' => negb (dict_mem k d') && distinct_keys d'
  end.

Fixpoint value_ok (v : value) : bool :=
  match v with
  | VStr s => text_ok s
  | VList l => forallb value_ok l
  | VDict d =>
      forallb (fun kv => text_ok (fst kv) && value_ok (snd kv)) d && distinct_keys d
  | _ => true
  end.

(** The message [send_request] builds. *)
Definition request (method : str) (params id : value) : value :=
  VDict ([(lit "jsonrpc", VStr (lit "2.0"));
          (lit "method", VStr method);
          (lit "params", params)]
         ++ (if is_none id then [] else [(lit "id", id)])).

(** The header block of a frame that declares [n] body bytes, and the
    frame around a body. *)
Definition header (n : Z) : bytes :=
  lit "Content-Length: " ++ int_repr n ++ CRLF ++ CRLF.

Definition frame (body : bytes) : bytes :=
  header (Z.of_nat (List.length body)) ++ body.

(** The frame of a message, as [send_request] writes it. *)
Definition frame_of (m : value) : bytes := frame (dumps m).

(** A header line [name:text] and a block of such lines.  The fields the
    properties talk about are ASCII, with no colon in the name and no line
    feed anywhere. *)
Definition field_line (kv : str * str) : bytes :=
  fst kv ++ 58 :: snd kv ++ CRLF.

Definition header_block (fields : list (str * str)) : bytes :=
  flat_map field_line fields.

Definition field_ok (kv : str * str) : bool :=
  is_ascii (fst kv) && is_ascii (snd kv)
  && negb (existsb (fun c => (c =? 58) || (c =? LF)) (fst kv))
  && negb (existsb (fun c => c =? LF) (snd kv)).

(** The header mapping the loop of [read_response] builds from fields. *)
Definition headers_of (fields : list (str * str)) (h : list (str * str))
  : list (str * str) :=
  fold_left (fun h kv => dict_set (strip (fst kv)) (strip (snd kv)) h) fields h.

(** What [read_response] does with the body bytes it got. *)
Definition decode_body (b : bytes) : result value :=
  match utf8_decode b with
  | Ok s => json_loads s
  | Raise e => Raise e
  end.

(** Readings off a trace. *)
Definition written (t : list event) : bytes :=
  flat_map (fun e => match e with Write d => d | _ => [] end) t.

Definition is_terminate (e : event) : bool :=
  match e with Terminate => true | _ => false end.

Definition terminated (t : list event) : bool := existsb is_terminate t.

Definition is_readline (e : event) : bool :=
  match e with Readline _ => true | _ => false end.

(** The number of [readline] calls: every receive makes at least one. *)
Definition readlines (t : list event) : nat := List.length (filter is_readline t).

Definition is_system_exit (e : exn) : bool :=
  match e with SystemExit _ => true | _ => false end.

(** A message object the wait loop passes over: not a diagnostics
    notification, or one with an empty list. *)
Definition passed_over (m : value) : bool :=
  match m with
  | VDict d =>
      match dict_get (lit "method") d with
      | Some meth =>
          if eq_str meth publish_method then
            match dict_get (lit "params") d with
            | Some (VDict p) =>
                match dict_get (lit "diagnostics") p with
                | Some (VList []) => true
                | _ => false
                end
            | _ => false
            end
          else true
      | None => true
      end
  | _ => false
  end.

(** The bytes written by one [send_request]. *)
Definition wire (method : str) (params id : value) : bytes :=
  match send_request method params id (initial [] (fun _ => 0%Q)) with
  | Some (_, w) => written (trace w)
  | None => []
  end.

(** The outcome of one [read_response] on a stream. *)
Definition receive (s : bytes) : option (result value) :=
  match read_response (initial s (fun _ => 0%Q)) with
  | Some (r, _) => Some r
  | None => None
  end.

(** The recursion budget that scanning the text of a value takes. *)
Fixpoint size (v : value) : nat :=
  match v with
  | VList l => S (fold_right (fun x a => S (size x) + a)%nat O l)
  | VDict d => S (fold_right (fun kv a => S (size (snd kv)) + a)%nat O d)
  | _ => 1%nat
  end.

Definition lsize (l : list value) : nat :=
  fold_right (fun x a => S (size x) + a)%nat O l.

Definition dsize (d : list (str * value)) : nat :=
  fold_right (fun kv a => S (size (snd kv)) + a)%nat O d.

(** What may follow a number in a text without being read into it. *)
Definition clean (rest : str) : bool :=
  match rest with
  | [] => true
  | c :: _ => negb (is_digit c || (c =? 46) || (c =? 101) || (c =? 69))
  end.

Definition all_space (s : str) : bool := forallb is_space s.

(** The two halves [json.dumps] writes for a character above U+FFFF. *)
Definition high_half (c : Z) : Z := Z.lor 55296 (Z.land (Z.shiftr (c - 65536) 10) 1023).
Definition low_half (c : Z) : Z := Z.lor 56320 (Z.land (c - 65536) 1023).

(** Does the text start with the two characters of a [\u] escape? *)
Definition starts_u (s : str) : bool :=
  match s with
  | b :: u :: _ => (b =? 92) && (u =? 117)
  | _ => false
  end.

(** The scanner reads the text of [x] back, whatever follows it. *)
Definition scans (x : value) : Prop :=
  forall fuel rest, (size x <= fuel)%nat -> clean rest = true ->
    scan_once fuel (dumps x ++ rest) = Some (Ok (x, rest)).

(** One [key: value] entry of a serialised dict. *)
Definition entry (kv : str * value) : str :=
  encode_basestring_ascii (fst kv) ++ lit ": " ++ dumps (snd kv).

(** The second half of [read_response]: the body, once the text of the
    length field is known. *)
Definition read_body (text : str) : M value :=
  length <- lift (py_int text) ;;
  raw <- read length ;;
  body <- lift (utf8_decode raw) ;;
  lift (json_loads body).

(** Is this the length field, by the exact name the script looks up? *)
Definition is_length_field (kv : str * str) : bool :=
  str_eqb (strip (fst kv)) (lit "Content-Length").

(** Is this a length field when case is ignored, as the protocol has it? *)
Definition is_length_field_nocase (kv : str * str) : bool :=
  eq_nocase (strip (fst kv)) (lit "Content-Length").

(** The [readline] events of a header block. *)
Definition line_events (fields : list (str * str)) : list event :=
  map (fun kv => Readline (field_line kv)) fields.

(** The length field of a frame. *)
Definition length_field (n : Z) : str * str := (lit "Content-Length", 32 :: decimal n).

(** The world after one call of [time.time()]. *)
Definition tick (w : world) : world :=
  mkWorld (stdout w) (clock w) (S (ticks w)) (trace w ++ [Time (clock w (ticks w))]).

(** The end of [main] after the wait loop: the timeout report. *)
Definition report_timeout : M unit :=
  print "FAILURE: Timed out waiting for diagnostics" None ;;
  terminate ;;
  sys_exit 1.

(** The trace of [main] up to its first receive. *)
Definition greeting : list event :=
  [Print "Starting LSP from " (Some (VStr (lit lsp_path)));
   Spawn lsp_path;
   Print "Sending initialize..." None;
   Write (frame_of (request (lit "initialize") initialize_params (VInt 1)));
   Flush].

(** The world in which the wait loop starts, given the world [w] in which
    the first receive returned [resp]. *)
Definition opened (resp : value) (w : world) : world :=
  tick
    (emit (Print "Waiting for diagnostics..." None)
       (emit Flush
          (emit (Write (frame_of (request (lit "textDocument/didOpen") did_open_params VNull)))
             (emit (Print "Opening document..." None)
                (emit Flush
                   (emit (Write (frame_of (request (lit "initialized") (VDict []) VNull)))
                      (emit (Print "Initialize response:" (Some resp)) w))))))).

(** A computation is tidy when it leaves by [sys.exit] only after a
    [terminate], and otherwise does not touch the subprocess's life. *)
Definition tidy {A : Type} (m : M A) : Prop :=
  forall w r w', m w = Some (r, w') ->
    match r with
    | Raise (SystemExit _) => terminated (trace w') = true
    | _ => terminated (trace w') = terminated (trace w)
    end.

(** A result that is not an exit. *)
Definition no_exit {A : Type} (r : result A) : Prop :=
  match r with
  | Raise e => is_system_exit e = false
  | Ok _ => True
  end.

Definition no_exit_run {A : Type} (o : option (result A)) : Prop :=
  match o with
  | Some r => no_exit r
  | None => True
  end.

(** The trace of [k] turns of the wait loop at the end of the stream,
    from the [tk]-th clock reading on, and of the check that ends it. *)
Fixpoint eof_turns (clk : nat -> Q) (tk k : nat) : list event :=
  match k with
  | O => [Time (clk tk)]
  | S k' => Time (clk tk) :: Readline [] :: eof_turns clk (S tk) k'
  end.

(** The bytes a trace shows were taken off the subprocess's output. *)
Definition consumed (t : list event) : bytes :=
  flat_map (fun e => match e with
                     | Readline d => d
                     | Read _ d => d
                     | _ => []
                     end) t.

(** Kinds of events. *)
Definition is_read (e : event) : bool :=
  match e with Readline _ | Read _ _ => true | _ => false end.

Definition is_write (e : event) : bool :=
  match e with Write _ | Flush => true | _ => false end.

Definition is_report (e : event) : bool :=
  match e with Print _ _ | Terminate => true | _ => false end.

Definition is_time (e : event) : bool :=
  match e with Time _ => true | _ => false end.

Definition is_loop_event (e : event) : bool := is_read e || is_report e || is_time e.

Definition any_event (e : event) : bool := true.

(** The number of clock readings in a trace. *)
Definition times (t : list event) : nat := List.length (filter is_time t).

(** [w'] comes after [w] by events of the allowed kinds only: the clock is
    the same, the trace has grown by these events, the bytes they took
    followed by the output left are the output there was, and the clock
    was read as often as the events say. *)
Definition within (allowed : event -> bool) (w w' : world) : Prop :=
  clock w' = clock w /\
  exists evs,
    trace w' = trace w ++ evs /\
    forallb allowed evs = true /\
    consumed evs ++ stdout w' = stdout w /\
    ticks w' = (ticks w + times evs)%nat.

Definition keeps {A : Type} (allowed : event -> bool) (m : M A) : Prop :=
  forall w r w', m w = Some (r, w') -> within allowed w w'.

(** A computation that comes to an end in every world. *)
Definition ends {A : Type} (m : M A) : Prop :=
  forall w, exists r w', m w = Some (r, w').

(** [n] calls of [read_response] in a row, collecting what they return. *)
Fixpoint read_responses (n : nat) : M (list value) :=
  match n with
  | O => ret []
  | S k =>
      v <- read_response ;;
      vs <- read_responses k ;;
      ret (v :: vs)
  end.

(** The three frames [main] writes. *)
Definition initialize_frame : bytes :=
  frame_of (request (lit "initialize") initialize_params (VInt 1)).
Definition initialized_frame : bytes :=
  frame_of (request (lit "initialized") (VDict []) VNull).
Definition did_open_frame : bytes :=
  frame_of (request (lit "textDocument/didOpen") did_open_params VNull).

(** Text made of printable ASCII characters only: no control character,
    no line end, nothing above [~]. *)
Definition printable (s : list Z) : bool := forallb (in_range 32 126) s.

(** A computation that never leaves through [sys.exit]. *)
Definition quiet {A : Type} (m : M A) : Prop :=
  forall w r w', m w = Some (r, w') -> no_exit r.

(** The two reports that go before a [terminate] in the loop body. *)
Definition success_report : event := Print "SUCCESS: Found expected diagnostic!" None.
Definition mismatch_report (msg : value) : event :=
  Print "FAILURE: Unexpected diagnostic message: " (Some msg).
Definition receipt (resp : value) : event := Print "Received diagnostics:" (Some resp).

(** A message in which the loop body finds what it waits for:
    [resp['method']] is the diagnostics method and
    [resp['params']['diagnostics'][0]['message']] contains the expected
    text. *)
Definition accepted (resp : value) : Prop :=
  is_publish resp = Ok true /\
  exists params diags d0 msg,
    getitem_str resp (lit "params") = Ok params /\
    getitem_str params (lit "diagnostics") = Ok diags /\
    getitem_0 diags = Ok d0 /\
    getitem_str d0 (lit "message") = Ok msg /\
    contains_str expected_text msg = Ok true.

(** A diagnostics notification whose first entry carries the text [msg]. *)
Definition notification (msg : str) (note : value) : Prop :=
  exists d p e more,
    note = VDict d /\
    dict_get (lit "method") d = Some (VStr publish_method) /\
    dict_get (lit "params") d = Some (VDict p) /\
    dict_get (lit "diagnostics") p = Some (VList (VDict e :: more)) /\
    dict_get (lit "message") e = Some (VStr msg).

(** A message that is not an object and on which the test at the head of
    the loop body fails with an error: [True], a number other than 0 (no
    [in] on them), a string in which [method] occurs, a list that holds the
    string [method] (no index by a string on them). *)
Definition breaks (resp : value) : bool :=
  match resp with
  | VBool b => b
  | VInt n => negb (n =? 0)
  | VStr t => substring (lit "method") t
  | VList l => existsb (fun x => eq_str x (lit "method")) l
  | _ => false
  end.

(** * Properties of the runtime pieces *)

(** ** Decimal text *)

Section Decimal.

Lemma digits_acc_value (fuel : nat) :
  forall n acc, 0 <= n < 2 ^ Z.of_nat fuel ->
    fold_left dec_step (digits_acc fuel n acc) 0 = fold_left dec_step acc n.
Proof.
  induction fuel as [|k IH]; intros n acc Hn.
  - simpl in *. assert (n = 0) by lia. subst. reflexivity.
  - cbn [digits_acc].
    assert (Hk : 2 ^ Z.of_nat (S k) = 2 * 2 ^ Z.of_nat k)
      by (rewrite Nat2Z.inj_succ, Z.pow_succ_r; lia).
    pose proof (Z.div_mod n 10 ltac:(lia)) as Hdm.
    pose proof (Z.mod_pos_bound n 10 ltac:(lia)) as Hm.
    destruct (Z.eqb_spec (n / 10) 0) as [Hq|Hq].
    + cbn [fold_left]. unfold dec_step at 2. f_equal. lia.
    + rewrite IH.
      * cbn [fold_left]. unfold dec_step at 2. f_equal. lia.
      * split; [apply Z.div_pos; lia|].
        apply Z.div_lt_upper_bound; lia.
Qed.

Lemma log2_fuel (n : Z) : 0 <= n -> n < 2 ^ Z.of_nat (S (Z.to_nat (Z.log2 n))).
Proof.
  intros Hn. rewrite Nat2Z.inj_succ, Z2Nat.id by apply Z.log2_nonneg.
  destruct (Z.eq_dec n 0) as [->|Hz]; [reflexivity|].
  apply Z.log2_spec. lia.
Qed.

Lemma dec_value_decimal (n : Z) : 0 <= n -> dec_value (decimal n) = n.
Proof.
  intros Hn. unfold dec_value, decimal.
  rewrite digits_acc_value by (split; [lia | apply log2_fuel; lia]).
  reflexivity.
Qed.

Lemma digits_acc_digits (fuel : nat) :
  forall n acc, 0 <= n -> Forall (fun c => is_digit c = true) acc ->
    Forall (fun c => is_digit c = true) (digits_acc fuel n acc).
Proof.
  induction fuel as [|k IH]; intros n acc Hn Hacc; [exact Hacc|].
  cbn [digits_acc].
  pose proof (Z.mod_pos_bound n 10 ltac:(lia)) as Hm.
  assert (Hd : is_digit (48 + n mod 10) = true) by (unfold is_digit; lia).
  destruct (n / 10 =? 0).
  - constructor; assumption.
  - apply IH; [apply Z.div_pos; lia | constructor; assumption].
Qed.

Lemma decimal_digits (n : Z) :
  0 <= n -> Forall (fun c => is_digit c = true) (decimal n).
Proof. intros Hn. apply digits_acc_digits; [lia | constructor]. Qed.

(** The first digit: [0] only for the number 0, whose text is "0". *)
Lemma digits_acc_head (fuel : nat) :
  forall n acc, 0 < n < 2 ^ Z.of_nat fuel ->
    exists d r, digits_acc fuel n acc = d :: r /\ 49 <= d <= 57.
Proof.
  induction fuel as [|k IH]; intros n acc Hn.
  - simpl in Hn. lia.
  - cbn [digits_acc].
    assert (Hk : 2 ^ Z.of_nat (S k) = 2 * 2 ^ Z.of_nat k)
      by (rewrite Nat2Z.inj_succ, Z.pow_succ_r; lia).
    pose proof (Z.div_mod n 10 ltac:(lia)) as Hdm.
    pose proof (Z.mod_pos_bound n 10 ltac:(lia)) as Hm.
    destruct (Z.eqb_spec (n / 10) 0) as [Hq|Hq].
    + eexists _, _. split; [reflexivity|]. lia.
    + apply IH.
      assert (0 <= n / 10) by (apply Z.div_pos; lia).
      split; [lia|]. apply Z.div_lt_upper_bound; lia.
Qed.

Lemma decimal_head (n : Z) :
  0 <= n ->
  exists d r, decimal n = d :: r /\ 48 <= d <= 57 /\ (d = 48 -> r = [] /\ n = 0).
Proof.
  intros Hn. destruct (Z.eq_dec n 0) as [->|Hz].
  - exists 48, []. repeat split; lia.
  - destruct (digits_acc_head (S (Z.to_nat (Z.log2 n))) n []) as (d & r & E & Hd).
    + split; [lia | apply log2_fuel; lia].
    + exists d, r. unfold decimal. rewrite E. repeat split; lia.
Qed.

Lemma int_digits_all (ds : str) :
  Forall (fun c => is_digit c = true) ds ->
  forall b acc, ds <> [] \/ b = true ->
    int_digits b ds acc = Some (rev acc ++ ds, []).
Proof.
  induction 1 as [|c ds Hc Hds IH]; intros b acc Hne.
  - destruct Hne as [Hne| ->]; [congruence|]. simpl. now rewrite app_nil_r.
  - cbn [int_digits]. rewrite Hc. rewrite IH by (right; reflexivity).
    simpl. now rewrite <- app_assoc.
Qed.

Lemma digit_not_space (c : Z) : is_digit c = true -> is_space c = false.
Proof. unfold is_digit, is_space. lia. Qed.

Lemma digit_not_int_space (c : Z) : is_digit c = true -> is_int_space c = false.
Proof. unfold is_digit, is_int_space, is_space. lia. Qed.

Lemma digits_ascii_only (ds : str) :
  Forall (fun c => is_digit c = true) ds ->
  existsb (fun c => (128 <=? c) && negb (is_space c)) ds = false.
Proof.
  induction 1 as [|c ds Hc _ IH]; [reflexivity|].
  simpl. rewrite IH. unfold is_digit in Hc.
  replace (128 <=? c) with false by lia. reflexivity.
Qed.

(** [int] reads back what [str] prints. *)
Lemma py_int_decimal (n : Z) : 0 <= n -> py_int (decimal n) = Ok n.
Proof.
  intros Hn. pose proof (decimal_digits n Hn) as Hds.
  pose proof (dec_value_decimal n Hn) as Hv.
  destruct (decimal_head n Hn) as (d & r & E & Hd & _).
  unfold py_int. rewrite digits_ascii_only by assumption.
  rewrite E in *. assert (Hd1 : is_digit d = true) by (unfold is_digit; lia).
  cbn [skip_int_space]. rewrite (digit_not_int_space d Hd1).
  replace (d =? 45) with false by lia. replace (d =? 43) with false by lia.
  rewrite Hd1. rewrite int_digits_all by (auto; left; discriminate).
  simpl. rewrite Hv. reflexivity.
Qed.

End Decimal.

(** ** Induction on values *)

Section ValueInduction.

Variable P : value -> Prop.
Hypothesis P_null : P VNull.
Hypothesis P_bool : forall b, P (VBool b).
Hypothesis P_int : forall n, P (VInt n).
Hypothesis P_str : forall s, P (VStr s).
Hypothesis P_list : forall l, Forall P l -> P (VList l).
Hypothesis P_dict : forall d, Forall (fun kv => P (snd kv)) d -> P (VDict d).

Fixpoint value_induction (v : value) : P v :=
  match v with
  | VNull => P_null
  | VBool b => P_bool b
  | VInt n => P_int n
  | VStr s => P_str s
  | VList l =>
      P_list l
        ((fix all (l : list value) : Forall P l :=
            match l with
            | [] => Forall_nil P
            | x :: l' => Forall_cons x (value_induction x) (all l')
            end) l)
  | VDict d =>
      P_dict d
        ((fix all (d : list (str * value)) : Forall (fun kv => P (snd kv)) d :=
            match d with
            | [] => Forall_nil _
            | kv :: d' => Forall_cons kv (value_induction (snd kv)) (all d')
            end) d)
  end.

End ValueInduction.

(** ** ASCII text and UTF-8 *)

Section Ascii.

Lemma is_ascii_cons (c : Z) (s : list Z) :
  is_ascii (c :: s) = true <-> 0 <= c <= 127 /\ is_ascii s = true.
Proof.
  unfold is_ascii. simpl. rewrite andb_true_iff. unfold in_range. intuition lia.
Qed.

Lemma is_ascii_app (a b : list Z) :
  is_ascii (a ++ b) = is_ascii a && is_ascii b.
Proof. unfold is_ascii. apply forallb_app. Qed.

Lemma is_ascii_flat_map {A : Type} (f : A -> list Z) (l : list A) :
  (forall x, is_ascii (f x) = true) -> is_ascii (flat_map f l) = true.
Proof.
  intros Hf. induction l as [|x l IH]; [reflexivity|].
  simpl. rewrite is_ascii_app, Hf, IH. reflexivity.
Qed.

(** On ASCII text the codec is the identity: one byte per character. *)
Lemma utf8_encode_ascii (s : str) : is_ascii s = true -> utf8_encode s = Ok s.
Proof.
  induction s as [|c s IH]; [reflexivity|].
  rewrite is_ascii_cons. intros [Hc Hs]. cbn [utf8_encode].
  unfold utf8_encode1, in_range.
  replace ((0 <=? c) && (c <=? 127)) with true by lia.
  rewrite IH by assumption. reflexivity.
Qed.

Lemma utf8_decode_ascii (b : bytes) : is_ascii b = true -> utf8_decode b = Ok b.
Proof.
  induction b as [|c b IH]; [reflexivity|].
  rewrite is_ascii_cons. intros [Hc Hb]. cbn [utf8_decode].
  unfold in_range at 1.
  replace ((0 <=? c) && (c <=? 127)) with true by lia.
  rewrite IH by assumption. reflexivity.
Qed.

Lemma digits_ascii (ds : str) :
  Forall (fun c => is_digit c = true) ds -> is_ascii ds = true.
Proof.
  induction 1 as [|c ds Hc _ IH]; [reflexivity|].
  apply is_ascii_cons. unfold is_digit in Hc. split; [lia | exact IH].
Qed.

Lemma int_repr_ascii (n : Z) : is_ascii (int_repr n) = true.
Proof.
  unfold int_repr. destruct (Z.ltb_spec n 0).
  - apply is_ascii_cons. split; [lia|].
    apply digits_ascii, decimal_digits. lia.
  - apply digits_ascii, decimal_digits. lia.
Qed.

Lemma land15_range (x : Z) : 0 <= Z.land x 15 <= 15.
Proof.
  assert (E : Z.land x 15 = x mod 16) by (apply (Z.land_ones x 4); lia).
  rewrite E. pose proof (Z.mod_pos_bound x 16 ltac:(lia)). lia.
Qed.

Lemma hex_digit_ascii (x : Z) : 0 <= x <= 15 -> 48 <= hex_digit x <= 102.
Proof. unfold hex_digit. intros Hx. destruct (Z.ltb_spec x 10); lia. Qed.

Lemma u_escape_ascii (c : Z) : is_ascii (u_escape c) = true.
Proof.
  unfold u_escape, hex4.
  pose proof (hex_digit_ascii _ (land15_range (Z.shiftr c 12))).
  pose proof (hex_digit_ascii _ (land15_range (Z.shiftr c 8))).
  pose proof (hex_digit_ascii _ (land15_range (Z.shiftr c 4))).
  pose proof (hex_digit_ascii _ (land15_range c)).
  repeat (apply is_ascii_cons; split; [lia|]). reflexivity.
Qed.

Lemma escape_char_ascii (c : Z) : is_ascii (escape_char c) = true.
Proof.
  unfold escape_char.
  repeat match goal with
         | |- context [if ?b then _ else _] => destruct b eqn:?
         end;
    try reflexivity;
    try apply u_escape_ascii;
    try (rewrite is_ascii_app, !u_escape_ascii; reflexivity).
  apply is_ascii_cons. unfold in_range in *. split; [lia | reflexivity].
Qed.

Lemma encode_basestring_ascii_ascii (s : str) :
  is_ascii (encode_basestring_ascii s) = true.
Proof.
  unfold encode_basestring_ascii. apply is_ascii_cons. split; [lia|].
  rewrite is_ascii_app, is_ascii_flat_map by apply escape_char_ascii.
  reflexivity.
Qed.

Lemma join_ascii (sep : str) (parts : list str) :
  is_ascii sep = true -> Forall (fun p => is_ascii p = true) parts ->
  is_ascii (join sep parts) = true.
Proof.
  intros Hsep. induction 1 as [|p parts Hp Hparts IH]; [reflexivity|].
  cbn [join]. destruct parts as [|q parts]; [exact Hp|].
  rewrite !is_ascii_app, Hp, Hsep, IH. reflexivity.
Qed.

(** With [ensure_ascii] the serialised text is ASCII, whatever the
    strings inside the value hold. *)
Lemma dumps_ascii (v : value) : is_ascii (dumps v) = true.
Proof.
  induction v as [ |b|n|s|l IH|d IH] using value_induction.
  - reflexivity.
  - destruct b; reflexivity.
  - apply int_repr_ascii.
  - apply encode_basestring_ascii_ascii.
  - cbn [dumps]. apply is_ascii_cons. split; [lia|].
    rewrite is_ascii_app, join_ascii; [reflexivity.. | ].
    apply Forall_map. exact IH.
  - cbn [dumps]. apply is_ascii_cons. split; [lia|].
    rewrite is_ascii_app, join_ascii; [reflexivity.. | ].
    apply Forall_map. eapply Forall_impl; [|exact IH].
    intros kv Hkv. cbn beta.
    rewrite !is_ascii_app, encode_basestring_ascii_ascii, Hkv. reflexivity.
Qed.

End Ascii.

(** ** Strings: equality, stripping, splitting *)

Section Strings.

Lemma str_eqb_eq (a b : str) : str_eqb a b = true <-> a = b.
Proof.
  revert b. induction a as [|x a IH]; intros [|y b]; simpl;
    try (split; [discriminate | congruence]); [tauto|].
  rewrite andb_true_iff, Z.eqb_eq, IH. split; [intros [-> ->] | intros [= -> ->]]; auto.
Qed.

Lemma str_eqb_refl (a : str) : str_eqb a a = true.
Proof. now apply str_eqb_eq. Qed.

Lemma str_eqb_neq (a b : str) : str_eqb a b = false <-> a <> b.
Proof.
  rewrite <- str_eqb_eq. destruct (str_eqb a b); split; congruence.
Qed.

Lemma lstrip_app_space (s ws : str) :
  all_space ws = true ->
  lstrip (s ++ ws) = match lstrip s with [] => [] | _ :: _ => lstrip s ++ ws end.
Proof.
  intros Hws. induction s as [|c s IH]; simpl.
  - induction ws as [|w ws IHw]; [reflexivity|].
    simpl in *. apply andb_true_iff in Hws as [-> Hws]. auto.
  - destruct (is_space c); [exact IH | reflexivity].
Qed.

Lemma lstrip_space (ws : str) : all_space ws = true -> lstrip ws = [].
Proof.
  intros H. pose proof (lstrip_app_space [] ws H) as E. exact E.
Qed.

Lemma all_space_rev (ws : str) : all_space (rev ws) = all_space ws.
Proof.
  unfold all_space. induction ws as [|w ws IH]; [reflexivity|].
  simpl. rewrite forallb_app, IH. simpl. rewrite andb_true_r. apply andb_comm.
Qed.

Lemma rstrip_app_space (s ws : str) :
  all_space ws = true -> rstrip (s ++ ws) = rstrip s.
Proof.
  intros Hws. unfold rstrip. rewrite rev_app_distr. f_equal.
  induction (rev ws) as [|w r IH] eqn:E in ws, Hws |- *; [reflexivity|].
  assert (Hr : all_space (w :: r) = true) by (rewrite <- E, all_space_rev; exact Hws).
  simpl in Hr. apply andb_true_iff in Hr as [Hw Hr].
  simpl. rewrite Hw. apply (IH (rev r)); [now rewrite all_space_rev | apply rev_involutive].
Qed.

(** Trailing white space, such as the line end, does not survive
    [strip]. *)
Lemma strip_app_space (s ws : str) :
  all_space ws = true -> strip (s ++ ws) = strip s.
Proof.
  intros Hws. unfold strip. rewrite lstrip_app_space by assumption.
  destruct (lstrip s) eqn:E; [reflexivity|].
  now rewrite rstrip_app_space.
Qed.

(** Text that neither starts nor ends with white space is its own
    [strip]. *)
Lemma lstrip_id (c : Z) (s : str) : is_space c = false -> lstrip (c :: s) = c :: s.
Proof. intros H. simpl. now rewrite H. Qed.

Lemma strip_digits (ds : str) :
  Forall (fun c => is_digit c = true) ds -> strip ds = ds.
Proof.
  intros H. unfold strip, rstrip.
  assert (L : forall t, Forall (fun c => is_digit c = true) t -> lstrip t = t).
  { intros [|c t] Ht; [reflexivity|]. inversion Ht; subst.
    apply lstrip_id, digit_not_space. assumption. }
  rewrite (L ds H), (L (rev ds)) by (apply Forall_rev; exact H).
  apply rev_involutive.
Qed.

Lemma split1_none (sep : Z) (s : str) :
  split1 sep s = None <-> ~ In sep s.
Proof.
  induction s as [|c s IH]; simpl; [tauto|].
  destruct (Z.eqb_spec c sep) as [->|Hne].
  - split; [discriminate | intros H; exfalso; apply H; now left].
  - destruct (split1 sep s) as [[a b]|].
    + split; [discriminate|]. intros H. exfalso.
      assert (~ In sep s) by tauto. apply IH in H0. discriminate.
    + split; [|reflexivity]. intros _ [E|Hin]; [congruence|]. now apply IH.
Qed.

Lemma split1_app (sep : Z) (a b : str) :
  existsb (fun c => c =? sep) a = false ->
  split1 sep (a ++ sep :: b) = Some (a, b).
Proof.
  induction a as [|c a IH]; simpl.
  - now rewrite Z.eqb_refl.
  - intros H. apply orb_false_iff in H as [-> H]. now rewrite IH.
Qed.

End Strings.

(** ** Lines of the stream *)

Section Lines.

Lemma take_line_app (l rest : bytes) :
  existsb (fun c => c =? LF) l = false ->
  take_line (l ++ LF :: rest) = (l ++ [LF], rest).
Proof.
  induction l as [|c l IH]; simpl.
  - reflexivity.
  - intros H. apply orb_false_iff in H as [-> H]. now rewrite IH.
Qed.

Lemma take_line_eof (l : bytes) :
  existsb (fun c => c =? LF) l = false -> take_line l = (l, []).
Proof.
  induction l as [|c l IH]; simpl; [reflexivity|].
  intros H. apply orb_false_iff in H as [-> H]. now rewrite IH.
Qed.

(** A line and the rest make up the stream; a non-empty stream gives a
    non-empty line. *)
Lemma take_line_split (s : bytes) :
  forall l r, take_line s = (l, r) -> s = l ++ r /\ (s <> [] -> l <> []).
Proof.
  induction s as [|c s IH]; simpl; intros l r E.
  - inversion E. split; [reflexivity | congruence].
  - destruct (c =? LF).
    + inversion E. split; [reflexivity | discriminate].
    + destruct (take_line s) as [l' r']. inversion E; subst.
      destruct (IH l' r eq_refl) as [-> _]. split; [reflexivity | discriminate].
Qed.

End Lines.

(** ** The monad *)

Section Monad.

Context {A B : Type}.

Lemma bind_ok (m : M A) (k : A -> M B) (w w' : world) (a : A) :
  m w = Some (Ok a, w') -> bind m k w = k a w'.
Proof. unfold bind. now intros ->. Qed.

Lemma bind_raise (m : M A) (k : A -> M B) (w w' : world) (e : exn) :
  m w = Some (Raise e, w') -> bind m k w = Some (Raise e, w').
Proof. unfold bind. now intros ->. Qed.

Lemma bind_none (m : M A) (k : A -> M B) (w : world) :
  m w = None -> bind m k w = None.
Proof. unfold bind. now intros ->. Qed.

Lemma bind_lift_ok (a : A) (k : A -> M B) (w : world) :
  bind (lift (Ok a)) k w = k a w.
Proof. reflexivity. Qed.

Lemma bind_lift_raise (e : exn) (k : A -> M B) (w : world) :
  bind (lift (Raise e)) k w = Some (Raise e, w).
Proof. reflexivity. Qed.

End Monad.

(** ** The header loop *)

Section Headers.

Variable clk : nat -> Q.

Lemma existsb_or_false (p q : Z -> bool) (s : list Z) :
  existsb (fun c => p c || q c) s = false ->
  existsb p s = false /\ existsb q s = false.
Proof.
  induction s as [|c s IH]; [split; reflexivity|].
  simpl. rewrite !orb_false_iff. tauto.
Qed.

Lemma field_line_shape (kv : str * str) :
  field_ok kv = true ->
  is_ascii (field_line kv) = true /\
  split1 58 (field_line kv) = Some (fst kv, snd kv ++ CRLF) /\
  (forall more,
      take_line (field_line kv ++ more) = (field_line kv, more)) /\
  str_eqb (field_line kv) CRLF = false /\
  field_line kv <> [].
Proof.
  destruct kv as [k v]. unfold field_ok, field_line. cbn [fst snd].
  rewrite !andb_true_iff, !negb_true_iff. intros [[[Hk Hv] Hk58] Hv10].
  repeat split.
  - rewrite is_ascii_app, Hk. cbn [andb]. apply is_ascii_cons. split; [lia|].
    rewrite is_ascii_app, Hv. reflexivity.
  - apply split1_app, (existsb_or_false _ _ _ Hk58).
  - intros more.
    replace ((k ++ 58 :: v ++ CRLF) ++ more)
      with ((k ++ 58 :: v ++ [CR]) ++ LF :: more)
      by (rewrite <- !app_assoc; cbn; rewrite <- !app_assoc; reflexivity).
    rewrite take_line_app.
    + rewrite <- !app_assoc. cbn. rewrite <- !app_assoc. reflexivity.
    + rewrite existsb_app. cbn [existsb]. rewrite existsb_app, Hv10. cbn.
      rewrite orb_false_r. apply (existsb_or_false _ _ _ Hk58).
  - apply str_eqb_neq. intros E.
    apply (f_equal (@List.length Z)) in E.
    rewrite length_app in E. cbn [List.length] in E. rewrite length_app in E.
    cbn in E. lia.
  - intros E. destruct k; discriminate E.
Qed.

(** One turn of the loop on a field line. *)
Lemma read_headers_field (kv : str * str) (fuel : nat) (h : list (str * str))
      (more : bytes) (tk : nat) (tr : list event) :
  field_ok kv = true ->
  read_headers (S fuel) h (mkWorld (field_line kv ++ more) clk tk tr) =
  read_headers fuel (dict_set (strip (fst kv)) (strip (snd kv)) h)
    (mkWorld more clk tk (tr ++ [Readline (field_line kv)])).
Proof.
  intros Hok.
  destruct (field_line_shape kv Hok) as (Hasc & Hsplit & Htake & Hneq & Hne).
  cbn [read_headers]. unfold bind at 1. unfold readline. cbn [stdout].
  rewrite Htake. unfold emit. cbn [stdout clock ticks trace].
  unfold bind at 1. unfold lift. rewrite utf8_decode_ascii by assumption.
  destruct (field_line kv) as [|c line] eqn:E; [congruence|].
  rewrite Hneq, Hsplit.
  rewrite strip_app_space by reflexivity. reflexivity.
Qed.

(** The loop run over a block of field lines. *)
Lemma read_headers_block (fields : list (str * str)) :
  forallb field_ok fields = true ->
  forall fuel h more tk tr,
    read_headers (List.length fields + fuel) h
      (mkWorld (header_block fields ++ more) clk tk tr) =
    read_headers fuel (headers_of fields h)
      (mkWorld more clk tk (tr ++ map (fun kv => Readline (field_line kv)) fields)).
Proof.
  induction fields as [|kv fields IH]; intros Hok fuel h more tk tr.
  - cbn. now rewrite app_nil_r.
  - cbn [forallb] in Hok. apply andb_true_iff in Hok as [Hkv Hok].
    cbn [List.length Nat.add header_block flat_map].
    rewrite <- app_assoc, read_headers_field by assumption.
    fold (header_block fields). rewrite IH by assumption.
    cbn [headers_of fold_left map]. rewrite <- app_assoc. reflexivity.
Qed.

(** The loop ends at the empty line and at the end of the stream. *)
Lemma read_headers_blank (fuel : nat) (h : list (str * str))
      (rest : bytes) (tk : nat) (tr : list event) :
  read_headers (S fuel) h (mkWorld (CRLF ++ rest) clk tk tr) =
  Some (Ok h, mkWorld rest clk tk (tr ++ [Readline CRLF])).
Proof. reflexivity. Qed.

Lemma read_headers_eof (fuel : nat) (h : list (str * str))
      (tk : nat) (tr : list event) :
  read_headers (S fuel) h (mkWorld [] clk tk tr) =
  Some (Ok h, mkWorld [] clk tk (tr ++ [Readline []])).
Proof. reflexivity. Qed.

Lemma header_block_length (fields : list (str * str)) :
  (List.length fields <= List.length (header_block fields))%nat.
Proof.
  induction fields as [|kv fields IH]; [apply Nat.le_refl|].
  cbn [header_block flat_map]. fold (header_block fields).
  rewrite length_app. unfold field_line. rewrite length_app. cbn. lia.
Qed.

End Headers.

(** ** Hexadecimal escapes and surrogate pairs *)

Section Escapes.

Lemma lor_shiftl_add (a b k : Z) :
  0 <= k -> 0 <= b < 2 ^ k -> Z.lor (Z.shiftl a k) b = a * 2 ^ k + b.
Proof.
  intros Hk Hb.
  assert (Hland : Z.land (Z.shiftl a k) b = 0).
  { apply Z.bits_inj'. intros i Hi. rewrite Z.land_spec, Z.bits_0.
    destruct (Z.lt_ge_cases i k) as [Hlt|Hge].
    - rewrite Z.shiftl_spec_low by assumption. reflexivity.
    - destruct (Z.eq_dec b 0) as [->|Hnz].
      + rewrite Z.bits_0. apply andb_false_r.
      + rewrite (Z.bits_above_log2 b i); [apply andb_false_r | lia |].
        apply Z.lt_le_trans with k; [apply Z.log2_lt_pow2; lia | lia]. }
  pose proof (Z.add_lor_land (Z.shiftl a k) b) as E.
  rewrite Hland, Z.add_0_r in E. rewrite E, Z.shiftl_mul_pow2 by assumption.
  reflexivity.
Qed.

Lemma land_ones_mod (x k : Z) : 0 <= k -> Z.land x (2 ^ k - 1) = x mod 2 ^ k.
Proof.
  intros Hk. rewrite <- Z.land_ones by assumption.
  f_equal. rewrite Z.ones_equiv. lia.
Qed.

Lemma hex_value_digit (n : Z) : 0 <= n <= 15 -> hex_value (hex_digit n) = Some n.
Proof.
  intros Hn. unfold hex_digit, hex_value, in_range.
  destruct (Z.ltb_spec n 10).
  - replace ((48 <=? 48 + n) && (48 + n <=? 57)) with true by lia. f_equal. lia.
  - replace ((48 <=? 87 + n) && (87 + n <=? 57)) with false by lia.
    replace ((97 <=? 87 + n) && (87 + n <=? 102)) with true by lia. f_equal. lia.
Qed.

(** Four hexadecimal digits read back as the number they were printed
    from. *)
Lemma hex4_value_hex4 (x : Z) :
  0 <= x < 65536 ->
  hex4_value (hex_digit (Z.land (Z.shiftr x 12) 15))
             (hex_digit (Z.land (Z.shiftr x 8) 15))
             (hex_digit (Z.land (Z.shiftr x 4) 15))
             (hex_digit (Z.land x 15)) = Some x.
Proof.
  intros Hx. unfold hex4_value.
  rewrite !hex_value_digit by apply land15_range. f_equal.
  assert (L : forall y, Z.land y 15 = y mod 16) by (intro; apply (land_ones_mod _ 4); lia).
  rewrite !L, !Z.shiftr_div_pow2 by lia.
  change (2 ^ 12) with 4096. change (2 ^ 8) with 256. change (2 ^ 4) with 16.
  assert (H3 := Z.mod_pos_bound (x / 4096) 16 ltac:(lia)).
  assert (H2 := Z.mod_pos_bound (x / 256) 16 ltac:(lia)).
  assert (H1 := Z.mod_pos_bound (x / 16) 16 ltac:(lia)).
  assert (H0 := Z.mod_pos_bound x 16 ltac:(lia)).
  rewrite (lor_shiftl_add _ ((x / 256) mod 16) 4) by (change (2 ^ 4) with 16; lia).
  rewrite (lor_shiftl_add _ ((x / 16) mod 16) 4) by (change (2 ^ 4) with 16; lia).
  rewrite (lor_shiftl_add _ (x mod 16) 4) by (change (2 ^ 4) with 16; lia).
  change (2 ^ 4) with 16.
  Z.to_euclidean_division_equations. lia.
Qed.

Lemma halves (c : Z) :
  65536 <= c <= 1114111 ->
  high_half c = 55296 + (c - 65536) / 1024 /\
  low_half c = 56320 + (c - 65536) mod 1024.
Proof.
  intros Hc. unfold high_half, low_half.
  assert (L : forall y, Z.land y 1023 = y mod 1024)
    by (intro; apply (land_ones_mod _ 10); lia).
  rewrite !L, Z.shiftr_div_pow2 by lia. change (2 ^ 10) with 1024.
  assert (Hq : 0 <= (c - 65536) / 1024 < 1024)
    by (split; [apply Z.div_pos; lia | apply Z.div_lt_upper_bound; lia]).
  rewrite (Z.mod_small _ 1024 Hq).
  assert (Hm := Z.mod_pos_bound (c - 65536) 1024 ltac:(lia)).
  split.
  - change 55296 with (Z.shiftl 54 10) at 1.
    rewrite lor_shiftl_add by (change (2 ^ 10) with 1024; lia).
    change (2 ^ 10) with 1024. lia.
  - change 56320 with (Z.shiftl 55 10) at 1.
    rewrite lor_shiftl_add by (change (2 ^ 10) with 1024; lia).
    change (2 ^ 10) with 1024. lia.
Qed.

Lemma halves_join (c : Z) :
  65536 <= c <= 1114111 ->
  is_high_surrogate (high_half c) = true /\
  is_low_surrogate (low_half c) = true /\
  join_surrogates (high_half c) (low_half c) = c.
Proof.
  intros Hc. destruct (halves c Hc) as [Hh Hl]. rewrite Hh, Hl.
  assert (Hq : 0 <= (c - 65536) / 1024 < 1024)
    by (split; [apply Z.div_pos; lia | apply Z.div_lt_upper_bound; lia]).
  assert (Hm := Z.mod_pos_bound (c - 65536) 1024 ltac:(lia)).
  unfold is_high_surrogate, is_low_surrogate, in_range, join_surrogates.
  repeat split; try lia.
  assert (L : forall y, Z.land y 1023 = y mod 1024)
    by (intro; apply (land_ones_mod _ 10); lia).
  rewrite !L.
  replace ((55296 + (c - 65536) / 1024) mod 1024) with ((c - 65536) / 1024)
    by (Z.to_euclidean_division_equations; lia).
  replace ((56320 + (c - 65536) mod 1024) mod 1024) with ((c - 65536) mod 1024)
    by (Z.to_euclidean_division_equations; lia).
  rewrite lor_shiftl_add by (change (2 ^ 10) with 1024; lia).
  change (2 ^ 10) with 1024.
  Z.to_euclidean_division_equations. lia.
Qed.

End Escapes.

(** ** Strings through [json.dumps] and back *)

Section StringRoundTrip.

(** The scanner on a [\uXXXX] escape. *)
Lemma scanstring_u_plain (x : Z) (s3 acc : str) :
  0 <= x < 65536 -> is_high_surrogate x = false ->
  scanstring (u_escape x ++ s3) acc = scanstring s3 (x :: acc).
Proof.
  intros Hx Hh. unfold u_escape, hex4. cbn [app scanstring].
  change (92 =? 34) with false. change (92 =? 92) with true.
  change (117 =? 117) with true. cbv iota.
  rewrite hex4_value_hex4 by assumption. rewrite Hh. reflexivity.
Qed.

Lemma scanstring_u_high_alone (x : Z) (s3 acc : str) :
  0 <= x < 65536 -> starts_u s3 = false ->
  scanstring (u_escape x ++ s3) acc = scanstring s3 (x :: acc).
Proof.
  intros Hx Hs. unfold u_escape, hex4. cbn [app scanstring].
  change (92 =? 34) with false. change (92 =? 92) with true.
  change (117 =? 117) with true. cbv iota.
  rewrite hex4_value_hex4 by assumption.
  destruct (is_high_surrogate x); [|reflexivity].
  destruct s3 as [|b [|u [|k1 [|k2 [|k3 [|k4 s4]]]]]]; try reflexivity.
  unfold starts_u in Hs. rewrite Hs. reflexivity.
Qed.

Lemma scanstring_u_high_then (x y : Z) (s3 acc : str) :
  0 <= x < 65536 -> 0 <= y < 65536 -> is_low_surrogate y = false ->
  scanstring (u_escape x ++ u_escape y ++ s3) acc =
  scanstring (u_escape y ++ s3) (x :: acc).
Proof.
  intros Hx Hy Hl. unfold u_escape at 1. unfold hex4 at 1. cbn [app scanstring].
  change (92 =? 34) with false. change (92 =? 92) with true.
  change (117 =? 117) with true. cbv iota.
  rewrite hex4_value_hex4 by assumption.
  destruct (is_high_surrogate x); [|reflexivity].
  unfold u_escape, hex4. cbn [app].
  change ((92 =? 92) && (117 =? 117)) with true. cbv iota.
  rewrite hex4_value_hex4 by assumption. rewrite Hl. reflexivity.
Qed.

Lemma scanstring_u_pair (x y : Z) (s3 acc : str) :
  0 <= x < 65536 -> 0 <= y < 65536 ->
  is_high_surrogate x = true -> is_low_surrogate y = true ->
  scanstring (u_escape x ++ u_escape y ++ s3) acc =
  scanstring s3 (join_surrogates x y :: acc).
Proof.
  intros Hx Hy Hh Hl. unfold u_escape, hex4. cbn [app scanstring].
  change (92 =? 34) with false. change (92 =? 92) with true.
  change (117 =? 117) with true. cbv iota.
  rewrite hex4_value_hex4 by assumption. rewrite Hh.
  change ((92 =? 92) && (117 =? 117)) with true. cbv iota.
  rewrite hex4_value_hex4 by assumption. rewrite Hl. reflexivity.
Qed.

Lemma starts_u_head (b : Z) (s : str) : (b =? 92) = false -> starts_u (b :: s) = false.
Proof. intros H. destruct s; [reflexivity|]. simpl. now rewrite H. Qed.

Lemma starts_u_second (u : Z) (s : str) : (u =? 117) = false -> starts_u (92 :: u :: s) = false.
Proof. intros H. simpl. now rewrite H. Qed.

Lemma halves_range (c : Z) :
  65536 <= c <= 1114111 ->
  0 <= high_half c < 65536 /\ 0 <= low_half c < 65536 /\
  is_low_surrogate (high_half c) = false.
Proof.
  intros Hc. destruct (halves_join c Hc) as (Hh & Hl & _).
  unfold is_high_surrogate, is_low_surrogate, in_range in *. lia.
Qed.

Lemma escape_char_pair (c : Z) :
  65536 <= c -> escape_char c = u_escape (high_half c) ++ u_escape (low_half c).
Proof.
  intros Hc. unfold escape_char, in_range.
  replace (c =? 34) with false by lia. replace (c =? 92) with false by lia.
  replace (c =? 10) with false by lia. replace (c =? 13) with false by lia.
  replace (c =? 9) with false by lia. replace (c =? 12) with false by lia.
  replace (c =? 8) with false by lia.
  replace ((32 <=? c) && (c <=? 126)) with false by lia.
  replace (c <? 65536) with false by lia. reflexivity.
Qed.

(** A [\uXXXX] escape followed by the rest of an escaped string is read
    as one character, unless it is a high surrogate and a low one comes
    next. *)
Lemma scanstring_u_char (c : Z) (s' rest acc : str) :
  0 <= c < 65536 ->
  forallb (in_range 0 1114111) s' = true ->
  match s' with
  | d :: _ => negb (is_high_surrogate c && is_low_surrogate d)
  | [] => true
  end = true ->
  scanstring (u_escape c ++ flat_map escape_char s' ++ 34 :: rest) acc =
  scanstring (flat_map escape_char s' ++ 34 :: rest) (c :: acc).
Proof.
  intros Hc Hs' Hpair.
  destruct (is_high_surrogate c) eqn:Hh; [|now apply scanstring_u_plain].
  destruct s' as [|d s''].
  - apply scanstring_u_high_alone; [assumption | now apply starts_u_head].
  - cbn [andb] in Hpair. apply negb_true_iff in Hpair.
    cbn [forallb] in Hs'. apply andb_true_iff in Hs' as [Hd _].
    cbn [flat_map]. rewrite <- app_assoc.
    set (tail := flat_map escape_char s'' ++ 34 :: rest).
    destruct (Z.ltb_spec d 65536) as [Hlt|Hge].
    + unfold escape_char.
      repeat match goal with
             | |- context [if ?b then _ else _] => destruct b eqn:?
             end;
        try (apply scanstring_u_high_alone;
             [assumption | apply starts_u_second; reflexivity]);
        try (now apply scanstring_u_high_alone;
             [assumption | apply starts_u_head; assumption]);
        try lia.
      apply scanstring_u_high_then; try assumption.
      unfold in_range in Hd. lia.
    + unfold in_range in Hd.
      destruct (halves_range d ltac:(lia)) as (Hhr & Hlr & Hnl).
      rewrite escape_char_pair, <- app_assoc by assumption.
      now apply scanstring_u_high_then.
Qed.

Lemma scanstring_char (c : Z) (s' rest acc : str) :
  in_range 0 1114111 c = true ->
  forallb (in_range 0 1114111) s' = true ->
  match s' with
  | d :: _ => negb (is_high_surrogate c && is_low_surrogate d)
  | [] => true
  end = true ->
  scanstring (escape_char c ++ flat_map escape_char s' ++ 34 :: rest) acc =
  scanstring (flat_map escape_char s' ++ 34 :: rest) (c :: acc).
Proof.
  intros Hc Hs' Hpair. unfold in_range in Hc.
  destruct (Z.ltb_spec c 65536) as [Hlt|Hge].
  - unfold escape_char.
    repeat match goal with
           | |- context [if ?b then _ else _] => destruct b eqn:?
           end;
      try (apply Z.eqb_eq in Heqb; subst c; reflexivity);
      try (apply Z.eqb_eq in Heqb0; subst c; reflexivity);
      try (apply Z.eqb_eq in Heqb1; subst c; reflexivity);
      try (apply Z.eqb_eq in Heqb2; subst c; reflexivity);
      try (apply Z.eqb_eq in Heqb3; subst c; reflexivity);
      try (apply Z.eqb_eq in Heqb4; subst c; reflexivity);
      try (apply Z.eqb_eq in Heqb5; subst c; reflexivity);
      try lia.
    + cbn [app scanstring]. rewrite Heqb, Heqb0.
      unfold in_range in *. replace (c <? 32) with false by lia. reflexivity.
    + apply scanstring_u_char; try assumption. lia.
  - destruct (halves_range c ltac:(lia)) as (Hhr & Hlr & _).
    destruct (halves_join c ltac:(lia)) as (Hh & Hl & Hj).
    rewrite escape_char_pair, <- app_assoc by assumption.
    rewrite scanstring_u_pair by assumption. now rewrite Hj.
Qed.

(** The scanner reads an escaped string back. *)
Lemma scanstring_escaped (s : str) :
  text_ok s = true ->
  forall rest acc,
    scanstring (flat_map escape_char s ++ 34 :: rest) acc = Ok (rev acc ++ s, rest).
Proof.
  unfold text_ok. rewrite andb_true_iff. intros [Hcp Hns].
  induction s as [|c s IH]; intros rest acc.
  - cbn. now rewrite app_nil_r.
  - cbn [forallb] in Hcp. apply andb_true_iff in Hcp as [Hc Hcp].
    cbn [no_surrogate_pair] in Hns. apply andb_true_iff in Hns as [Hp Hns].
    cbn [flat_map]. rewrite <- app_assoc, scanstring_char by assumption.
    rewrite IH by assumption. cbn [rev]. now rewrite <- app_assoc.
Qed.

End StringRoundTrip.

(** ** Numbers through [json.dumps] and back *)

Section NumberRoundTrip.

Lemma clean_not_digit (rest : str) :
  clean rest = true ->
  match rest with c :: _ => is_digit c = false | [] => True end.
Proof.
  destruct rest as [|c rest]; [trivial|]. unfold clean.
  rewrite negb_true_iff, !orb_false_iff. tauto.
Qed.

Lemma clean_not_float (rest : str) : clean rest = true -> float_follows rest = false.
Proof.
  destruct rest as [|c rest]; [reflexivity|]. unfold clean, float_follows.
  rewrite negb_true_iff, !orb_false_iff. intros [[[_ ->] ->] ->]. reflexivity.
Qed.

Lemma span_digits_app (ds rest : str) :
  Forall (fun c => is_digit c = true) ds -> clean rest = true ->
  span_digits (ds ++ rest) = (ds, rest).
Proof.
  intros Hds Hrest. induction Hds as [|c ds Hc _ IH].
  - apply clean_not_digit in Hrest. destruct rest as [|c rest]; [reflexivity|].
    simpl. now rewrite Hrest.
  - simpl. now rewrite Hc, IH.
Qed.

(** The digits of a natural number, read as a JSON number. *)
Lemma match_number_decimal (n : Z) (rest : str) :
  0 <= n -> clean rest = true ->
  match_number (decimal n ++ rest) = Ok (VInt n, rest).
Proof.
  intros Hn Hrest.
  pose proof (decimal_digits n Hn) as Hds.
  pose proof (dec_value_decimal n Hn) as Hv.
  destruct (decimal_head n Hn) as (d & r & E & Hd & Hz).
  rewrite E in *.
  assert (Hr : Forall (fun c => is_digit c = true) r) by (inversion Hds; assumption).
  unfold match_number. cbn [app]. replace (d =? 45) with false by lia.
  unfold in_range.
  destruct (Z.eq_dec d 48) as [->|Hnz].
  - destruct (Hz eq_refl) as [-> ->]. cbn [app].
    change ((49 <=? 48) && (48 <=? 57)) with false. cbv iota.
    change ((48 <=? 48) && (48 <=? 57)) with true. cbv iota.
    now rewrite clean_not_float.
  - replace ((49 <=? d) && (d <=? 57)) with true by lia.
    rewrite span_digits_app by assumption.
    replace ((48 <=? d) && (d <=? 57)) with true by lia.
    rewrite clean_not_float by assumption. now rewrite Hv.
Qed.

Lemma match_number_repr (n : Z) (rest : str) :
  clean rest = true -> match_number (int_repr n ++ rest) = Ok (VInt n, rest).
Proof.
  intros Hrest. unfold int_repr. destruct (Z.ltb_spec n 0) as [Hneg|Hpos].
  - pose proof (match_number_decimal (- n) rest ltac:(lia) Hrest) as H.
    destruct (decimal_head (- n) ltac:(lia)) as (d & r & E & Hd & Hz).
    unfold match_number in *. rewrite E in *. cbn [app] in *.
    change (45 =? 45) with true. cbv iota.
    replace (d =? 45) with false in H by lia.
    destruct (if in_range 49 57 d then _ else _) as [ds r'].
    destruct (in_range 48 57 d); [|discriminate].
    destruct (float_follows r'); [discriminate|].
    inversion H. f_equal. f_equal. f_equal. lia.
  - now apply match_number_decimal.
Qed.

(** How the text of an integer starts. *)
Lemma int_repr_shape (n : Z) :
  exists h t, int_repr n = h :: t /\
    (48 <= h <= 57 \/ (h = 45 /\ exists d t', t = d :: t' /\ 48 <= d <= 57)).
Proof.
  unfold int_repr. destruct (Z.ltb_spec n 0) as [Hneg|Hpos].
  - destruct (decimal_head (- n) ltac:(lia)) as (d & r & E & Hd & _).
    exists 45, (decimal (- n)). split; [reflexivity|]. right. split; [reflexivity|].
    exists d, r. tauto.
  - destruct (decimal_head n Hpos) as (d & r & E & Hd & _).
    exists d, r. tauto.
Qed.

Lemma startswith_ne (x h : Z) (p s : str) : x <> h -> startswith (x :: p) (h :: s) = false.
Proof. intros H. simpl. replace (x =? h) with false by lia. reflexivity. Qed.

Lemma scan_once_int (n : Z) (fuel : nat) (rest : str) :
  clean rest = true ->
  scan_once (S fuel) (int_repr n ++ rest) = Some (Ok (VInt n, rest)).
Proof.
  intros Hrest. rewrite <- (match_number_repr n rest Hrest).
  destruct (int_repr_shape n) as (h & t & E & Hh). rewrite E. cbn [app scan_once].
  assert (Hne : h <> 34 /\ h <> 123 /\ h <> 91 /\ h <> 110 /\ h <> 116 /\ h <> 102
                /\ h <> 78 /\ h <> 73) by lia.
  replace (h =? 34) with false by lia. replace (h =? 123) with false by lia.
  replace (h =? 91) with false by lia.
  change (lit "null") with (110 :: lit "ull"). change (lit "true") with (116 :: lit "rue").
  change (lit "false") with (102 :: lit "alse"). change (lit "NaN") with (78 :: lit "aN").
  change (lit "Infinity") with (73 :: lit "nfinity").
  rewrite !startswith_ne by lia. cbn [orb].
  destruct Hh as [Hd|[-> (d & t' & -> & Hd)]].
  - change (lit "-Infinity") with (45 :: lit "Infinity").
    rewrite startswith_ne by lia. reflexivity.
  - change (lit "-Infinity") with (45 :: 73 :: lit "nfinity"). cbn [app startswith].
    replace (73 =? d) with false by lia. rewrite andb_false_r. reflexivity.
Qed.

End NumberRoundTrip.

(** ** Values through [json.dumps] and back *)

Section ValueRoundTrip.

Lemma dict_get_app_none {A : Type} (k : str) (a b : list (str * A)) :
  dict_get k a = None -> dict_get k (a ++ b) = dict_get k b.
Proof.
  induction a as [|[k' v'] a IH]; [reflexivity|].
  simpl. destruct (str_eqb k k'); [discriminate | exact IH].
Qed.

Lemma dict_set_fresh {A : Type} (k : str) (v : A) (d : list (str * A)) :
  dict_mem k d = false -> dict_set k v d = d ++ [(k, v)].
Proof.
  unfold dict_mem. induction d as [|[k' v'] d IH]; [reflexivity|].
  simpl. destruct (str_eqb k k'); [discriminate|].
  intros H. now rewrite IH.
Qed.

Lemma dict_mem_app {A : Type} (k : str) (a b : list (str * A)) :
  dict_mem k (a ++ b) = dict_mem k a || dict_mem k b.
Proof.
  unfold dict_mem. induction a as [|[k' v'] a IH]; [reflexivity|].
  simpl. destruct (str_eqb k k'); [reflexivity | exact IH].
Qed.

Lemma dict_mem_single {A : Type} (k k' : str) (v : A) :
  dict_mem k [(k', v)] = str_eqb k k'.
Proof. unfold dict_mem. simpl. now destruct (str_eqb k k'). Qed.

Lemma str_eqb_sym (a b : str) : str_eqb a b = str_eqb b a.
Proof.
  destruct (str_eqb a b) eqn:E1, (str_eqb b a) eqn:E2; try reflexivity.
  - apply str_eqb_eq in E1. subst. now rewrite str_eqb_refl in E2.
  - apply str_eqb_eq in E2. subst. now rewrite str_eqb_refl in E1.
Qed.

Lemma dict_mem_eq {A : Type} (k k' : str) (d : list (str * A)) :
  str_eqb k k' = true -> dict_mem k d = dict_mem k' d.
Proof. intros E. apply str_eqb_eq in E. now subst. Qed.

(** Pairs with different keys make the dict they are listed in. *)
Lemma fold_dict_set_distinct (d acc : list (str * value)) :
  distinct_keys d = true ->
  forallb (fun kv => negb (dict_mem (fst kv) acc)) d = true ->
  fold_left (fun m kv => dict_set (fst kv) (snd kv) m) d acc = acc ++ d.
Proof.
  revert acc. induction d as [|[k v] d IH]; intros acc Hd Hacc.
  - now rewrite app_nil_r.
  - cbn [distinct_keys] in Hd. apply andb_true_iff in Hd as [Hk Hd].
    cbn [forallb fst] in Hacc. apply andb_true_iff in Hacc as [Hka Hacc].
    apply negb_true_iff in Hk, Hka.
    cbn [fold_left fst snd]. rewrite dict_set_fresh by assumption.
    rewrite IH; [now rewrite <- app_assoc | assumption |].
    clear IH Hd. induction d as [|[k' v'] d IHd]; [reflexivity|].
    cbn [forallb fst] in *. apply andb_true_iff in Hacc as [Hk' Hacc].
    unfold dict_mem in Hk. cbn [dict_get] in Hk.
    destruct (str_eqb k k') eqn:Ekk; [discriminate|].
    rewrite dict_mem_app, dict_mem_single. apply negb_true_iff in Hk'.
    rewrite Hk', str_eqb_sym, Ekk. cbn [orb negb andb].
    apply IHd; assumption.
Qed.

Lemma dict_of_pairs_distinct (d : list (str * value)) :
  distinct_keys d = true -> dict_of_pairs d = d.
Proof.
  intros Hd. unfold dict_of_pairs. rewrite fold_dict_set_distinct; auto.
  clear. induction d as [|kv d IH]; [reflexivity|]. exact IH.
Qed.

Lemma skip_ws_head (h : Z) (t : str) : is_json_ws h = false -> skip_ws (h :: t) = h :: t.
Proof. intros H. simpl. now rewrite H. Qed.

(** The text of a value starts with a character that is no white space,
    no closing bracket and no byte-order mark. *)
Lemma dumps_head (v : value) :
  exists h t, dumps v = h :: t /\ is_json_ws h = false /\ h <> 93 /\ h <> 65279.
Proof.
  destruct v as [ |[|]|n|s|l|d];
    try (eexists _, _; split; [reflexivity|]; repeat split; discriminate).
  destruct (int_repr_shape n) as (h & t & E & Hh).
  exists h, t. split; [exact E|]. unfold is_json_ws. repeat split; lia.
Qed.

Lemma join_head (sep p : str) (ps : list str) (h : Z) (t : str) :
  p = h :: t -> exists t', join sep (p :: ps) = h :: t'.
Proof.
  intros ->. destruct ps as [|q ps]; cbn [join]; [now exists t|].
  eexists. reflexivity.
Qed.

Lemma array_items_join (l : list value) :
  l <> [] -> Forall scans l ->
  forall fuel rest, (lsize l <= fuel)%nat ->
    array_items fuel (join (lit ", ") (map dumps l) ++ 93 :: rest) = Some (Ok (l, rest)).
Proof.
  intros Hne Hl. induction Hl as [|x l Hx Hl IH]; [congruence|].
  intros fuel rest Hfuel. cbn [lsize fold_right] in Hfuel. fold (lsize l) in Hfuel.
  destruct fuel as [|f]; [lia|].
  destruct l as [|y l'].
  - cbn [map join array_items].
    rewrite (Hx f (93 :: rest)) by (reflexivity || lia). reflexivity.
  - destruct (dumps_head y) as (h & t & Ey & Hws & _).
    destruct (join_head (lit ", ") (dumps y) (map dumps l') h t Ey) as (t' & Ej).
    change (dumps y :: map dumps l') with (map dumps (y :: l')) in Ej.
    assert (Hskip : forall z, skip_ws (join (lit ", ") (map dumps (y :: l')) ++ z)
                              = join (lit ", ") (map dumps (y :: l')) ++ z).
    { intros z. rewrite Ej. cbn [app]. now apply skip_ws_head. }
    change (join (lit ", ") (map dumps (x :: y :: l')))
      with (dumps x ++ 44 :: 32 :: join (lit ", ") (map dumps (y :: l'))).
    set (J := join (lit ", ") (map dumps (y :: l'))) in *.
    rewrite <- app_assoc. cbn [app array_items].
    rewrite (Hx f) by (reflexivity || lia).
    rewrite (skip_ws_head 44) by reflexivity. cbv iota.
    change (44 =? 93) with false. change (44 =? 44) with true. cbv iota.
    change (skip_ws (32 :: J ++ 93 :: rest)) with (skip_ws (J ++ 93 :: rest)).
    rewrite Hskip, IH by (discriminate || lia). reflexivity.
Qed.

Lemma entry_app (k : str) (v : value) (z : str) :
  entry (k, v) ++ z = 34 :: flat_map escape_char k ++ 34 :: 58 :: 32 :: dumps v ++ z.
Proof.
  unfold entry, encode_basestring_ascii. cbn [fst snd].
  change (lit ": ") with [58; 32].
  cbn [app]. rewrite <- !app_assoc. reflexivity.
Qed.

Lemma skip_ws_dumps (v : value) (z : str) : skip_ws (dumps v ++ z) = dumps v ++ z.
Proof.
  destruct (dumps_head v) as (h & t & E & Hws & _). rewrite E.
  cbn [app]. now apply skip_ws_head.
Qed.

Lemma object_items_join (d : list (str * value)) :
  d <> [] -> Forall (fun kv => text_ok (fst kv) = true /\ scans (snd kv)) d ->
  forall fuel rest, (dsize d <= fuel)%nat ->
    object_items fuel (join (lit ", ") (map entry d) ++ 125 :: rest) = Some (Ok (d, rest)).
Proof.
  intros Hne Hd. induction Hd as [|[k v] d [Hk Hv] Hd IH]; [congruence|].
  intros fuel rest Hfuel. cbn [dsize fold_right snd] in Hfuel. fold (dsize d) in Hfuel.
  cbn [fst snd] in Hk, Hv.
  destruct fuel as [|f]; [lia|].
  destruct d as [|kv' d'].
  - cbn [map join]. rewrite entry_app. cbn [object_items].
    change (34 =? 34) with true. cbv iota.
    rewrite scanstring_escaped by assumption. cbn [rev app].
    rewrite (skip_ws_head 58) by reflexivity. cbv iota.
    change (58 =? 58) with true. cbv iota.
    change (skip_ws (32 :: dumps v ++ 125 :: rest)) with (skip_ws (dumps v ++ 125 :: rest)).
    rewrite skip_ws_dumps, (Hv f) by (reflexivity || lia). reflexivity.
  - change (join (lit ", ") (map entry ((k, v) :: kv' :: d')))
      with (entry (k, v) ++ 44 :: 32 :: join (lit ", ") (map entry (kv' :: d'))).
    set (J := join (lit ", ") (map entry (kv' :: d'))) in *.
    assert (Hskip : forall z, skip_ws (J ++ z) = J ++ z).
    { intros z. destruct kv' as [k' v'].
      destruct (join_head (lit ", ") (entry (k', v')) (map entry d') 34
                  (flat_map escape_char k' ++ 34 :: 58 :: 32 :: dumps v'))
        as (t' & Ej).
      - rewrite <- (app_nil_r (entry (k', v'))), entry_app, app_nil_r. reflexivity.
      - subst J. cbn [map]. rewrite Ej. reflexivity. }
    rewrite <- app_assoc, entry_app. cbn [app object_items].
    change (34 =? 34) with true. cbv iota.
    rewrite scanstring_escaped by assumption. cbn [rev app].
    rewrite (skip_ws_head 58) by reflexivity. cbv iota.
    change (58 =? 58) with true. cbv iota.
    change (skip_ws (32 :: dumps v ++ ?z)) with (skip_ws (dumps v ++ z)).
    rewrite skip_ws_dumps, (Hv f) by (reflexivity || lia).
    rewrite (skip_ws_head 44) by reflexivity. cbv iota.
    change (44 =? 125) with false. change (44 =? 44) with true. cbv iota.
    change (skip_ws (32 :: J ++ 125 :: rest)) with (skip_ws (J ++ 125 :: rest)).
    rewrite Hskip, IH by (discriminate || lia). reflexivity.
Qed.

(** The scanner reads back the text of any well-formed value. *)
Lemma scan_once_dumps (v : value) : value_ok v = true -> scans v.
Proof.
  induction v as [ |b|n|s|l IH|d IH] using value_induction; intros Hok fuel rest Hfuel Hrest.
  - destruct fuel; [cbn in Hfuel; lia | reflexivity].
  - destruct fuel; [cbn in Hfuel; lia |]. destruct b; reflexivity.
  - destruct fuel; [cbn in Hfuel; lia |]. now apply scan_once_int.
  - destruct fuel; [cbn in Hfuel; lia |].
    cbn [dumps value_ok] in *. unfold encode_basestring_ascii.
    cbn [app scan_once]. change (34 =? 34) with true. cbv iota.
    rewrite <- app_assoc. cbn [app]. now rewrite scanstring_escaped.
  - destruct fuel as [|f]; [cbn in Hfuel; lia |].
    cbn [size] in Hfuel. fold (lsize l) in Hfuel.
    cbn [value_ok] in Hok.
    destruct l as [|x l']; [reflexivity|].
    assert (Hall : Forall scans (x :: l')).
    { rewrite Forall_forall in IH |- *. rewrite forallb_forall in Hok. auto. }
    destruct (dumps_head x) as (h & t & Ex & Hws & H93 & _).
    destruct (join_head (lit ", ") (dumps x) (map dumps l') h t Ex) as (t' & Ej).
    change (dumps x :: map dumps l') with (map dumps (x :: l')) in Ej.
    pose proof (array_items_join (x :: l') ltac:(discriminate) Hall f rest ltac:(lia)) as HA.
    set (J := join (lit ", ") (map dumps (x :: l'))) in *.
    change (dumps (VList (x :: l')) ++ rest) with (91 :: (J ++ [93]) ++ rest).
    rewrite <- app_assoc. cbn [app scan_once].
    change (91 =? 34) with false. change (91 =? 123) with false.
    change (91 =? 91) with true. cbv iota.
    assert (Hskip : skip_ws (J ++ 93 :: rest) = J ++ 93 :: rest)
      by (rewrite Ej; cbn [app]; now apply skip_ws_head).
    rewrite Hskip, HA. rewrite Ej. cbn [app].
    replace (h =? 93) with false by lia. reflexivity.
  - destruct fuel as [|f]; [cbn in Hfuel; lia |].
    cbn [size] in Hfuel. fold (dsize d) in Hfuel.
    cbn [value_ok] in Hok. apply andb_true_iff in Hok as [Hok Hdist].
    destruct d as [|[k v] d']; [reflexivity|].
    assert (Hall : Forall (fun kv => text_ok (fst kv) = true /\ scans (snd kv)) ((k, v) :: d')).
    { rewrite Forall_forall in IH |- *. rewrite forallb_forall in Hok.
      intros kv Hin. specialize (Hok kv Hin). apply andb_true_iff in Hok as [Hk Hv].
      split; [exact Hk | apply IH; assumption]. }
    pose proof (object_items_join ((k, v) :: d') ltac:(discriminate) Hall f rest ltac:(lia)) as HO.
    destruct (join_head (lit ", ") (entry (k, v)) (map entry d') 34
                (flat_map escape_char k ++ 34 :: 58 :: 32 :: dumps v)) as (t' & Ej).
    { rewrite <- (app_nil_r (entry (k, v))), entry_app, app_nil_r. reflexivity. }
    change (entry (k, v) :: map entry d') with (map entry ((k, v) :: d')) in Ej.
    set (J := join (lit ", ") (map entry ((k, v) :: d'))) in *.
    change (dumps (VDict ((k, v) :: d')) ++ rest) with (123 :: (J ++ [125]) ++ rest).
    rewrite <- app_assoc. cbn [app scan_once].
    change (123 =? 34) with false. change (123 =? 123) with true. cbv iota.
    assert (Hskip : skip_ws (J ++ 125 :: rest) = J ++ 125 :: rest)
      by (rewrite Ej; reflexivity).
    rewrite Hskip, HO. rewrite Ej. cbn [app].
    change (34 =? 125) with false. cbv iota.
    now rewrite dict_of_pairs_distinct.
Qed.

End ValueRoundTrip.

(** ** [json.loads] after [json.dumps] *)

Section LoadsDumps.

Lemma join_budget {A : Type} (f : A -> str) (sz : A -> nat) (l : list A) :
  Forall (fun x => (sz x <= 2 * List.length (f x))%nat) l ->
  (fold_right (fun x a => S (sz x) + a) O l + List.length l
   <= 2 * (List.length (join (lit ", ") (map f l)) + 2))%nat.
Proof.
  induction 1 as [|x l Hx Hl IH]; [cbn; lia|].
  destruct l as [|y l'].
  - cbn [map join fold_right List.length]. lia.
  - change (join (lit ", ") (map f (x :: y :: l')))
      with (f x ++ 44 :: 32 :: join (lit ", ") (map f (y :: l'))).
    rewrite length_app.
    cbn [fold_right List.length] in *. lia.
Qed.

Lemma size_le_text (v : value) : (size v <= 2 * List.length (dumps v))%nat.
Proof.
  induction v as [ |b|n|s|l IH|d IH] using value_induction.
  - cbn. lia.
  - destruct b; cbn; lia.
  - destruct (int_repr_shape n) as (h & t & E & _). cbn [dumps size]. rewrite E.
    cbn [List.length]. lia.
  - cbn [dumps size]. unfold encode_basestring_ascii. cbn [List.length]. lia.
  - pose proof (join_budget dumps size l IH) as H.
    cbn [size dumps List.length]. rewrite length_app. cbn [List.length].
    destruct l; [cbn; lia|]. cbn [List.length] in H. lia.
  - assert (IH' : Forall (fun kv => (size (snd kv) <= 2 * List.length (entry kv))%nat) d).
    { eapply Forall_impl; [|exact IH]. intros [k v] Hv. cbn [snd] in *.
      unfold entry. cbn [fst snd]. rewrite !length_app. lia. }
    pose proof (join_budget entry (fun kv => size (snd kv)) d IH') as H.
    destruct d as [|kv d]; [cbn; lia|]. cbn [List.length] in H.
    change (fold_right _ O (kv :: d)) with (dsize (kv :: d)) in H.
    change (size (VDict (kv :: d))) with (S (dsize (kv :: d))).
    change (dumps (VDict (kv :: d)))
      with (123 :: join (lit ", ") (map entry (kv :: d)) ++ [125]).
    cbn [List.length]. rewrite length_app. cbn [List.length]. lia.
Qed.

(** Decoding gives back the value that was serialised. *)
Lemma json_loads_dumps (v : value) : value_ok v = true -> json_loads (dumps v) = Ok v.
Proof.
  intros Hok. unfold json_loads.
  destruct (dumps_head v) as (h & t & E & Hws & _ & Hbom).
  assert (Hs : startswith [65279] (dumps v) = false)
    by (rewrite E; apply startswith_ne; lia).
  rewrite Hs.
  pose proof (skip_ws_dumps v []) as Hskip. rewrite app_nil_r in Hskip. rewrite Hskip.
  pose proof (scan_once_dumps v Hok (2 * List.length (dumps v) + 2)%nat []) as Hscan.
  rewrite app_nil_r in Hscan. rewrite Hscan; [reflexivity | | reflexivity].
  pose proof (size_le_text v). lia.
Qed.

Lemma decode_body_dumps (v : value) : value_ok v = true -> decode_body (dumps v) = Ok v.
Proof.
  intros Hok. unfold decode_body.
  rewrite utf8_decode_ascii by apply dumps_ascii. now apply json_loads_dumps.
Qed.

End LoadsDumps.

(** * Properties of the framed transport *)

(** ** Receiving *)

Section Receive.

Variable clk : nat -> Q.

Lemma dict_get_set {A : Type} (k k' : str) (v : A) (d : list (str * A)) :
  dict_get k (dict_set k' v d) = if str_eqb k k' then Some v else dict_get k d.
Proof.
  induction d as [|[k0 v0] d IH]; cbn [dict_set dict_get].
  - reflexivity.
  - destruct (str_eqb k' k0) eqn:E0.
    + apply str_eqb_eq in E0. subst k0. cbn [dict_get].
      destruct (str_eqb k k'); reflexivity.
    + cbn [dict_get]. destruct (str_eqb k k0) eqn:E1.
      * apply str_eqb_eq in E1. subst k0.
        now rewrite str_eqb_sym, E0.
      * exact IH.
Qed.

(** Fields with another name leave the length entry of the mapping
    alone; otherwise the last length field decides. *)
Lemma headers_of_other (fields h : list (str * str)) :
  existsb is_length_field fields = false ->
  dict_get (lit "Content-Length") (headers_of fields h) =
  dict_get (lit "Content-Length") h.
Proof.
  revert h. induction fields as [|kv fields IH]; intros h Hno; [reflexivity|].
  cbn [existsb] in Hno. apply orb_false_iff in Hno as [Hkv Hno].
  cbn [headers_of fold_left]. fold (headers_of fields).
  rewrite IH, dict_get_set by assumption.
  unfold is_length_field in Hkv. now rewrite str_eqb_sym, Hkv.
Qed.

Lemma headers_of_length (fields h : list (str * str)) :
  existsb is_length_field fields = true ->
  exists kv, In kv fields /\ is_length_field kv = true /\
    dict_get (lit "Content-Length") (headers_of fields h) = Some (strip (snd kv)).
Proof.
  revert h. induction fields as [|kv fields IH]; intros h Hex; [discriminate|].
  cbn [headers_of fold_left]. fold (headers_of fields).
  destruct (existsb is_length_field fields) eqn:Hrest.
  - destruct (IH (dict_set (strip (fst kv)) (strip (snd kv)) h) eq_refl)
      as (kv' & Hin & Hkv' & Hget).
    exists kv'. repeat split; [now right | assumption | assumption].
  - cbn [existsb] in Hex. rewrite Hrest, orb_false_r in Hex.
    exists kv. repeat split; [now left | assumption |].
    rewrite headers_of_other, dict_get_set by assumption.
    unfold is_length_field in Hex. now rewrite str_eqb_sym, Hex.
Qed.

(** [read_response] on a header block closed by the empty line. *)
Lemma read_response_block (fields : list (str * str)) (rest : bytes)
      (tk : nat) (tr : list event) :
  forallb field_ok fields = true ->
  read_response (mkWorld (header_block fields ++ CRLF ++ rest) clk tk tr) =
  match dict_get (lit "Content-Length") (headers_of fields []) with
  | None => ret VNull
  | Some text => read_body text
  end (mkWorld rest clk tk (tr ++ line_events fields ++ [Readline CRLF])).
Proof.
  intros Hok. unfold read_response. unfold bind at 1. cbn beta. cbn [stdout].
  pose proof (header_block_length fields) as Hlen.
  replace (S (List.length (header_block fields ++ CRLF ++ rest)))
    with (List.length fields
          + S (List.length (header_block fields ++ CRLF ++ rest) - List.length fields))%nat
    by (rewrite length_app in *; lia).
  rewrite read_headers_block, read_headers_blank by assumption.
  rewrite <- app_assoc. reflexivity.
Qed.

(** [read_response] on a header block cut short by the end of the
    stream. *)
Lemma read_response_block_eof (fields : list (str * str))
      (tk : nat) (tr : list event) :
  forallb field_ok fields = true ->
  read_response (mkWorld (header_block fields) clk tk tr) =
  match dict_get (lit "Content-Length") (headers_of fields []) with
  | None => ret VNull
  | Some text => read_body text
  end (mkWorld [] clk tk (tr ++ line_events fields ++ [Readline []])).
Proof.
  intros Hok. unfold read_response. unfold bind at 1. cbn beta. cbn [stdout].
  pose proof (header_block_length fields) as Hlen.
  replace (S (List.length (header_block fields)))
    with (List.length fields
          + S (List.length (header_block fields) - List.length fields))%nat by lia.
  rewrite <- (app_nil_r (header_block fields)) at 2.
  rewrite read_headers_block, read_headers_eof by assumption.
  rewrite <- app_assoc. reflexivity.
Qed.

(** The header of a frame is a block of one field. *)
Lemma header_as_block (n : Z) :
  0 <= n -> header n = header_block [length_field n] ++ CRLF.
Proof.
  intros Hn. unfold header, int_repr.
  replace (n <? 0) with false by lia.
  unfold header_block, length_field, field_line. cbn [flat_map fst snd].
  change (lit "Content-Length: ") with (lit "Content-Length" ++ [58; 32]).
  rewrite !app_nil_r, <- !app_assoc. cbn [app]. rewrite <- !app_assoc. reflexivity.
Qed.

Lemma digits_no_lf (ds : str) :
  Forall (fun c => is_digit c = true) ds -> existsb (fun c => c =? LF) ds = false.
Proof.
  induction 1 as [|c ds Hc _ IH]; [reflexivity|].
  cbn [existsb]. rewrite IH. unfold is_digit, LF in *.
  replace (c =? 10) with false by lia. reflexivity.
Qed.

Lemma length_field_ok (n : Z) : 0 <= n -> field_ok (length_field n) = true.
Proof.
  intros Hn. pose proof (decimal_digits n Hn) as Hds.
  unfold field_ok, length_field. cbn [fst snd].
  change (is_ascii (lit "Content-Length")) with true.
  change (existsb _ (lit "Content-Length")) with false.
  cbn [andb negb existsb].
  change (32 =? LF) with false. cbn [orb].
  rewrite digits_no_lf by assumption.
  assert (Ha : is_ascii (32 :: decimal n) = true)
    by (apply is_ascii_cons; split; [lia | now apply digits_ascii]).
  rewrite Ha. reflexivity.
Qed.

Lemma length_field_headers (n : Z) :
  0 <= n -> headers_of [length_field n] [] = [(lit "Content-Length", decimal n)].
Proof.
  intros Hn. unfold headers_of, length_field. cbn [fold_left fst snd dict_set].
  change (strip (lit "Content-Length")) with (lit "Content-Length").
  change (strip (32 :: decimal n)) with (strip (decimal n)).
  now rewrite strip_digits by now apply decimal_digits.
Qed.

(** [read_response] on a frame header that declares [n] bytes: it takes
    the [n] bytes that follow, or all there are when the stream ends
    before, and decodes them. *)
Lemma read_response_header (n : Z) (s : bytes) (tk : nat) (tr : list event) :
  0 <= n ->
  read_response (mkWorld (header n ++ s) clk tk tr) =
  Some (decode_body (firstn (Z.to_nat n) s),
        mkWorld (skipn (Z.to_nat n) s) clk tk
          (tr ++ [Readline (field_line (length_field n)); Readline CRLF;
                  Read n (firstn (Z.to_nat n) s)])).
Proof.
  intros Hn. rewrite header_as_block, <- app_assoc by assumption.
  rewrite read_response_block
    by (cbn [forallb]; now rewrite length_field_ok).
  rewrite length_field_headers by assumption. cbn [dict_get].
  change (str_eqb (lit "Content-Length") (lit "Content-Length")) with true. cbv iota.
  unfold read_body. rewrite py_int_decimal by assumption.
  rewrite bind_lift_ok. unfold bind at 1. unfold read. cbn [stdout clock ticks trace].
  replace (n <? -1) with false by lia. replace (n =? -1) with false by lia.
  unfold emit. cbn [stdout clock ticks trace line_events map app].
  rewrite <- app_assoc. cbn [app].
  unfold decode_body.
  destruct (utf8_decode (firstn (Z.to_nat n) s)) as [body|e]; reflexivity.
Qed.

(** A whole frame, followed by anything. *)
Lemma read_response_frame (b rest : bytes) (tk : nat) (tr : list event) :
  read_response (mkWorld (frame b ++ rest) clk tk tr) =
  Some (decode_body b,
        mkWorld rest clk tk
          (tr ++ [Readline (field_line (length_field (Z.of_nat (List.length b))));
                  Readline CRLF; Read (Z.of_nat (List.length b)) b])).
Proof.
  unfold frame. rewrite <- app_assoc, read_response_header by lia.
  rewrite Nat2Z.id, firstn_app, Nat.sub_diag, firstn_all, firstn_O, app_nil_r.
  rewrite skipn_app, Nat.sub_diag, skipn_all, skipn_O. reflexivity.
Qed.

End Receive.

(** ** Sending *)

Section Send.

Lemma request_content (method : str) (params id : value) :
  VDict (if negb (is_none id)
         then dict_set (lit "id") id
                [(lit "jsonrpc", VStr (lit "2.0")); (lit "method", VStr method);
                 (lit "params", params)]
         else [(lit "jsonrpc", VStr (lit "2.0")); (lit "method", VStr method);
               (lit "params", params)])
  = request method params id.
Proof. unfold request. destruct id; reflexivity. Qed.

Lemma frame_ascii (b : bytes) : is_ascii b = true -> is_ascii (frame b) = true.
Proof.
  intros Hb. unfold frame, header.
  rewrite !is_ascii_app, int_repr_ascii, Hb. reflexivity.
Qed.

(** One [send_request]: a single write of the frame of the message, then
    a flush. *)
Lemma send_request_run (method : str) (params id : value) (w : world) :
  send_request method params id w =
  Some (Ok tt, emit Flush (emit (Write (frame_of (request method params id))) w)).
Proof.
  unfold send_request. rewrite request_content.
  set (m := request method params id).
  assert (E : lit "Content-Length: " ++ int_repr (Z.of_nat (List.length (dumps m)))
                ++ CRLF ++ CRLF ++ dumps m = frame_of m).
  { unfold frame_of, frame, header. now rewrite <- !app_assoc. }
  rewrite E, utf8_encode_ascii by (apply frame_ascii, dumps_ascii).
  reflexivity.
Qed.

Lemma wire_frame (method : str) (params id : value) :
  wire method params id = frame_of (request method params id).
Proof.
  unfold wire. rewrite send_request_run.
  unfold emit, initial, written. cbn [trace app flat_map]. apply app_nil_r.
Qed.

Lemma request_ok (method : str) (params id : value) :
  text_ok method = true -> value_ok params = true -> value_ok id = true ->
  value_ok (request method params id) = true.
Proof.
  intros Hm Hp Hi. unfold request.
  destruct (is_none id); cbn [app value_ok forallb fst snd];
    rewrite Hm, Hp, ?Hi; reflexivity.
Qed.

End Send.

(** * The claims about the framed transport *)


(** C9. [read_response] is partial: when a header line that is neither
    empty nor the blank line holds no colon, unpacking the result of
    [split] raises [ValueError]; no message, no [None] comes back.  This
    holds wherever the line stands, after any number of well-formed
    fields. *)
Theorem read_response_line_without_colon
        (clk : nat -> Q) (fields : list (str * str)) (s raw rest : bytes)
        (line : str) (tk : nat) (tr : list event) :
  forallb field_ok fields = true ->
  take_line s = (raw, rest) ->
  utf8_decode raw = Ok line ->
  line <> [] ->
  str_eqb line CRLF = false ->
  existsb (fun c => c =? 58) line = false ->
  read_response (mkWorld (header_block fields ++ s) clk tk tr) =
  Some (Raise ValueError,
        mkWorld rest clk tk (tr ++ line_events fields ++ [Readline raw])).
Proof.
  intros Hok Htake Hdec Hne Hblank Hcolon.
  unfold read_response. unfold bind at 1. cbn beta. cbn [stdout].
  pose proof (header_block_length fields) as Hlen.
  replace (S (List.length (header_block fields ++ s)))
    with (List.length fields
          + S (List.length (header_block fields ++ s) - List.length fields))%nat
    by (rewrite length_app in *; lia).
  rewrite read_headers_block by assumption.
  cbn [read_headers]. unfold bind at 1. unfold readline. cbn [stdout].
  rewrite Htake. unfold emit. cbn [stdout clock ticks trace].
  unfold bind at 1. unfold lift. rewrite Hdec.
  destruct line as [|c line]; [congruence|].
  rewrite Hblank.
  assert (Hsplit : split1 58 (c :: line) = None).
  { apply split1_none. intros Hin.
    assert (Hex : existsb (fun c => c =? 58) (c :: line) = true)
      by (apply existsb_exists; exists 58; split; [exact Hin | reflexivity]).
    congruence. }
  rewrite Hsplit. unfold raise. now rewrite <- app_assoc.
Qed.

Lemma read_response_line_without_colon_witness :
  read_response (initial (lit "garbage" ++ CRLF) (fun _ => 0%Q)) =
  Some (Raise ValueError,
        mkWorld [] (fun _ => 0%Q) 0 [Readline (lit "garbage" ++ CRLF)]).
Proof.
  apply (read_response_line_without_colon (fun _ => 0%Q) []
           (lit "garbage" ++ CRLF) (lit "garbage" ++ CRLF) []
           (lit "garbage" ++ CRLF) 0%nat []).
  - reflexivity.
  - reflexivity.
  - reflexivity.
  - discriminate.
  - reflexivity.
  - reflexivity.
Defined.

(** C1, as the code has it.  [read_response] finds the length field by an
    exact, case-sensitive comparison of the stripped field name with
    [Content-Length].  On a header block closed by the empty line: when no
    field has that very name, it returns [None] and reads no body; when
    one has, it goes on to read the body that field declares. *)
Theorem read_response_length_field_exact
        (clk : nat -> Q) (fields : list (str * str)) (rest : bytes)
        (tk : nat) (tr : list event) :
  forallb field_ok fields = true ->
  (existsb is_length_field fields = false ->
   read_response (mkWorld (header_block fields ++ CRLF ++ rest) clk tk tr) =
   Some (Ok VNull, mkWorld rest clk tk (tr ++ line_events fields ++ [Readline CRLF])))
  /\
  (existsb is_length_field fields = true ->
   exists kv, In kv fields /\ is_length_field kv = true /\
     read_response (mkWorld (header_block fields ++ CRLF ++ rest) clk tk tr) =
     read_body (strip (snd kv))
       (mkWorld rest clk tk (tr ++ line_events fields ++ [Readline CRLF]))).
Proof.
  intros Hok. split; intros Hex; rewrite read_response_block by assumption.
  - rewrite headers_of_other by assumption. reflexivity.
  - destruct (headers_of_length fields [] Hex) as (kv & Hin & Hkv & Hget).
    exists kv. rewrite Hget. auto.
Qed.

Lemma read_response_length_field_exact_witness :
  read_response (initial (lit "Host: a" ++ CRLF ++ CRLF ++ lit "{}") (fun _ => 0%Q)) =
  Some (Ok VNull,
        mkWorld (lit "{}") (fun _ => 0%Q) 0
          [Readline (lit "Host: a" ++ CRLF); Readline CRLF]).
Proof.
  apply (proj1 (read_response_length_field_exact (fun _ => 0%Q)
                  [(lit "Host", lit " a")] (lit "{}") 0%nat [] eq_refl)).
  reflexivity.
Defined.

(** C1, as the claim has it, fails: a block whose length field is spelled
    [content-length] holds a field that is the length field when case is
    ignored, and [read_response] still returns [None], the body unread. *)
Lemma lower_case_length_field_not_found :
  let fields := [(lit "content-length", lit " 2")] in
  existsb is_length_field_nocase fields = true /\
  read_response (initial (header_block fields ++ CRLF ++ lit "{}") (fun _ => 0%Q)) =
  Some (Ok VNull,
        mkWorld (lit "{}") (fun _ => 0%Q) 0
          [Readline (lit "content-length: 2" ++ CRLF); Readline CRLF]).
Proof. split; reflexivity. Qed.







(** * Properties of the session driver *)

Section Driver.

Lemma terminated_app (a b : list event) :
  terminated (a ++ b) = terminated a || terminated b.
Proof. unfold terminated. apply existsb_app. Qed.

Lemma terminated_emit (e : event) (w : world) :
  terminated (trace (emit e w)) = terminated (trace w) || is_terminate e.
Proof.
  unfold emit. cbn [trace]. rewrite terminated_app. cbn. now rewrite orb_false_r.
Qed.

(** The loop, one turn unfolded. *)
Lemma wait_loop_turn (k : nat) (start : Q) (w : world) :
  wait_loop (S k) start w =
  if Qltb (clock w (ticks w) - start) 5
  then bind read_response
         (fun resp => bind (handle resp) (fun _ => wait_loop k start)) (tick w)
  else Some (Ok tt, tick w).
Proof.
  cbn [wait_loop]. unfold bind at 1. unfold time_time, emit, tick.
  cbn [stdout clock ticks trace].
  destruct (Qltb (clock w (ticks w) - start) 5); reflexivity.
Qed.

Lemma is_publish_notification (d : list (str * value)) :
  dict_get (lit "method") d = Some (VStr publish_method) ->
  is_publish (VDict d) = Ok true.
Proof.
  intros Hm. unfold is_publish.
  destruct d as [|kv d']; [discriminate|]. cbn [truthy].
  unfold contains_str, dict_mem. rewrite Hm. cbn [rbind].
  unfold getitem_str. rewrite Hm. cbn [rbind eq_str].
  now rewrite str_eqb_refl.
Qed.

Lemma length_cons_positive {A : Type} (x : A) (l : list A) :
  (Z.of_nat (List.length (x :: l)) >? 0) = true.
Proof. rewrite Z.gtb_ltb. apply Z.ltb_lt. cbn [List.length]. lia. Qed.

(** The loop body on a diagnostics notification whose list is read. *)
Lemma handle_notification (d p : list (str * value)) (diags : value) (w : world) :
  dict_get (lit "method") d = Some (VStr publish_method) ->
  dict_get (lit "params") d = Some (VDict p) ->
  dict_get (lit "diagnostics") p = Some diags ->
  handle (VDict d) w =
  bind (lift (py_len diags))
    (fun n =>
       if n >? 0 then
         d0 <- lift (getitem_0 diags) ;;
         msg <- lift (getitem_str d0 (lit "message")) ;;
         found <- lift (contains_str expected_text msg) ;;
         if (found : bool) then
           print "SUCCESS: Found expected diagnostic!" None ;;
           terminate ;;
           sys_exit 0
         else
           print "FAILURE: Unexpected diagnostic message: " (Some msg) ;;
           terminate ;;
           sys_exit 1
       else ret tt)
    (emit (Print "Received diagnostics:" (Some (VDict d))) w).
Proof.
  intros Hm Hp Hd. unfold handle.
  rewrite is_publish_notification by assumption. rewrite bind_lift_ok.
  unfold bind at 1. unfold print at 1.
  unfold getitem_str at 1. rewrite Hp. rewrite bind_lift_ok.
  unfold getitem_str at 1. rewrite Hd. rewrite bind_lift_ok.
  reflexivity.
Qed.

(** A message the loop passes over leaves the loop running; at most the
    receipt is printed. *)
Lemma handle_passed_over (m : value) (w : world) :
  passed_over m = true ->
  handle m w = Some (Ok tt, w) \/
  handle m w = Some (Ok tt, emit (Print "Received diagnostics:" (Some m)) w).
Proof.
  destruct m as [ | | | | |d]; try discriminate. unfold passed_over.
  destruct (dict_get (lit "method") d) as [meth|] eqn:Hm.
  - destruct (eq_str meth publish_method) eqn:He.
    + destruct meth as [ | | |s| | ]; try discriminate.
      cbn [eq_str] in He. apply str_eqb_eq in He. subst s.
      destruct (dict_get (lit "params") d) as [[ | | | | |p]|] eqn:Hp; try discriminate.
      destruct (dict_get (lit "diagnostics") p) as [[ | | | |[|x l]| ]|] eqn:Hd;
        try discriminate.
      intros _. right. erewrite handle_notification by eassumption. reflexivity.
    + intros _. left. unfold handle, is_publish.
      destruct d as [|kv d']; [reflexivity|]. cbn [truthy].
      unfold contains_str, dict_mem. rewrite Hm. cbn [rbind].
      unfold getitem_str. rewrite Hm. cbn [rbind]. rewrite He. reflexivity.
  - intros _. left. unfold handle, is_publish.
    destruct d as [|kv d']; [reflexivity|]. cbn [truthy].
    unfold contains_str, dict_mem. rewrite Hm. reflexivity.
Qed.

End Driver.

(** * The claims about the session driver *)



(** C10. The wait loop is partial on well-framed messages: when a
    diagnostics notification has a params object without a [diagnostics]
    key, or a first diagnostic object without a [message] key, the lookup
    raises [KeyError]; the loop neither passes the message over nor exits
    through [sys.exit], and no [terminate] is attempted. *)
Theorem wait_loop_key_error
        (k : nat) (start : Q) (w w2 : world) (d p : list (str * value)) :
  Qltb (clock w (ticks w) - start) 5 = true ->
  read_response (tick w) = Some (Ok (VDict d), w2) ->
  dict_get (lit "method") d = Some (VStr publish_method) ->
  dict_get (lit "params") d = Some (VDict p) ->
  dict_get (lit "diagnostics") p = None \/
  (exists e rest,
      dict_get (lit "diagnostics") p = Some (VList (VDict e :: rest)) /\
      dict_get (lit "message") e = None) ->
  wait_loop (S k) start w =
  Some (Raise KeyError, emit (Print "Received diagnostics:" (Some (VDict d))) w2).
Proof.
  intros Htime Hrecv Hm Hp Hbad.
  rewrite wait_loop_turn, Htime. rewrite (bind_ok _ _ _ _ _ Hrecv).
  unfold bind at 1.
  destruct Hbad as [Hd|(e & rest & Hd & Hmsg)].
  - unfold handle. rewrite is_publish_notification by assumption.
    rewrite bind_lift_ok. unfold bind at 1. unfold print at 1.
    unfold getitem_str at 1. rewrite Hp. rewrite bind_lift_ok.
    unfold getitem_str at 1. rewrite Hd. reflexivity.
  - rewrite (handle_notification d p _ w2 Hm Hp Hd).
    cbn [py_len]. rewrite bind_lift_ok.
    rewrite length_cons_positive.
    cbn [getitem_0]. rewrite bind_lift_ok.
    unfold getitem_str. rewrite Hmsg. reflexivity.
Qed.

Lemma wait_loop_key_error_witness :
  let note :=
    [(lit "method", VStr publish_method);
     (lit "params", VDict [(lit "uri", VStr (lit "file:///test.lex"))])] in
  let w := mkWorld (frame_of (VDict note)) (fun _ => 0%Q) 1 [] in
  match wait_loop 1 0%Q w with
  | Some (r, w') => r = Raise KeyError /\ terminated (trace w') = false
  | None => False
  end.
Proof.
  intros note w.
  pose (w2 := match read_response (tick w) with Some (_, w2) => w2 | None => w end).
  rewrite (wait_loop_key_error 0 0%Q w w2 note
             [(lit "uri", VStr (lit "file:///test.lex"))]
             eq_refl eq_refl eq_refl eq_refl (or_introl eq_refl)).
  split; reflexivity.
Defined.

(** ** No library call leaves through [sys.exit] *)

Section NoExit.

Ltac no_exit_step :=
  match goal with
  | |- no_exit (Raise _) => reflexivity
  | |- no_exit (Ok _) => exact I
  | |- no_exit (if ?b then _ else _) => destruct b
  | |- no_exit (match ?l with [] => _ | _ :: _ => _ end) => destruct l
  | |- no_exit (match ?o with Some _ => _ | None => _ end) => destruct o
  | |- no_exit (let '(_, _) := ?p in _) => destruct p
  end.

Lemma no_exit_map {A B : Type} (r : result A) (f : A -> B) :
  no_exit r -> no_exit (match r with Ok s => Ok (f s) | Raise e => Raise e end).
Proof. destruct r; auto. Qed.

Lemma utf8_decode_no_exit (b : bytes) : no_exit (utf8_decode b).
Proof.
  remember (List.length b) as n eqn:Hn. revert b Hn.
  induction n as [n IH] using lt_wf_ind. intros b Hn.
  destruct b as [|b0 r0]; [exact I|]. cbn [utf8_decode].
  repeat first
    [ no_exit_step
    | match goal with
      | |- no_exit (match utf8_decode ?r with Ok _ => _ | Raise _ => _ end) =>
          let H := fresh in
          assert (H : no_exit (utf8_decode r))
            by (apply (IH (List.length r)); [subst n; cbn [List.length]; lia | reflexivity]);
          destruct (utf8_decode r); [exact I | exact H]
      end ].
Qed.

Lemma utf8_encode_no_exit (s : str) : no_exit (utf8_encode s).
Proof.
  induction s as [|c s IH]; [exact I|]. cbn [utf8_encode].
  destruct (utf8_encode1 c); [|reflexivity].
  destruct (utf8_encode s); [exact I | exact IH].
Qed.

Lemma py_int_no_exit (s : str) : no_exit (py_int s).
Proof.
  unfold py_int. destruct (existsb _ s); [reflexivity|].
  destruct (skip_int_space s) as [|c r]; [reflexivity|].
  destruct (if c =? 45 then _ else _) as [neg s2].
  repeat no_exit_step.
Qed.

Lemma scanstring_no_exit (s : str) : forall acc, no_exit (scanstring s acc).
Proof.
  remember (List.length s) as n eqn:Hn. revert s Hn.
  induction n as [n IH] using lt_wf_ind. intros s Hn acc.
  destruct s as [|c s1]; [reflexivity|]. cbn [scanstring].
  repeat first
    [ no_exit_step
    | match goal with
      | |- no_exit (scanstring ?r _) =>
          apply (IH (List.length r)); [subst n; cbn [List.length]; lia | reflexivity]
      end ].
Qed.

Lemma match_number_no_exit (s : str) : no_exit (match_number s).
Proof.
  unfold match_number.
  destruct (match s with [] => _ | c :: r => _ end) as [neg s1].
  destruct s1 as [|c r]; [reflexivity|].
  destruct (if in_range 49 57 c then _ else _) as [ds r'].
  repeat no_exit_step.
Qed.

Lemma scanner_no_exit (fuel : nat) :
  (forall s, no_exit_run (scan_once fuel s)) /\
  (forall s, no_exit_run (array_items fuel s)) /\
  (forall s, no_exit_run (object_items fuel s)).
Proof.
  induction fuel as [|f (IHs & IHa & IHo)]; [repeat split; intros; exact I|].
  repeat split; intros s.
  - cbn [scan_once]. destruct s as [|c s']; [reflexivity|].
    destruct (c =? 34).
    { pose proof (scanstring_no_exit s' []) as H.
      destruct (scanstring s' []) as [[t r]|e]; [exact I | exact H]. }
    destruct (c =? 123).
    { destruct (skip_ws s') as [|c1 r1] eqn:E; [reflexivity|].
      destruct (c1 =? 125); [exact I|].
      pose proof (IHo (c1 :: r1)) as H.
      destruct (object_items f (c1 :: r1)) as [[[pairs r]|e]|]; [exact I | exact H | exact I]. }
    destruct (c =? 91).
    { destruct (skip_ws s') as [|c1 r1] eqn:E; [reflexivity|].
      destruct (c1 =? 93); [exact I|].
      pose proof (IHa (c1 :: r1)) as H.
      destruct (array_items f (c1 :: r1)) as [[[vs r]|e]|]; [exact I | exact H | exact I]. }
    repeat match goal with
           | |- no_exit_run (if ?b then _ else _) => destruct b
           end; try exact I; try reflexivity.
    apply match_number_no_exit.
  - cbn [array_items]. pose proof (IHs s) as H.
    destruct (scan_once f s) as [[[v r]|e]|]; [| exact H | exact I].
    destruct (skip_ws r) as [|c r']; [reflexivity|].
    destruct (c =? 93); [exact I|].
    destruct (c =? 44); [|reflexivity].
    pose proof (IHa (skip_ws r')) as H'.
    destruct (array_items f (skip_ws r')) as [[[vs r'']|e]|]; [exact I | exact H' | exact I].
  - cbn [object_items]. destruct s as [|c s']; [reflexivity|].
    destruct (c =? 34); [|reflexivity].
    pose proof (scanstring_no_exit s' []) as Hk.
    destruct (scanstring s' []) as [[k r]|e]; [|exact Hk].
    destruct (skip_ws r) as [|c1 r1]; [reflexivity|].
    destruct (c1 =? 58); [|reflexivity].
    pose proof (IHs (skip_ws r1)) as H.
    destruct (scan_once f (skip_ws r1)) as [[[v r2]|e]|]; [| exact H | exact I].
    destruct (skip_ws r2) as [|c2 r3]; [reflexivity|].
    destruct (c2 =? 125); [exact I|].
    destruct (c2 =? 44); [|reflexivity].
    pose proof (IHo (skip_ws r3)) as H'.
    destruct (object_items f (skip_ws r3)) as [[[kvs r4]|e]|]; [exact I | exact H' | exact I].
Qed.

Lemma json_loads_no_exit (s : str) : no_exit (json_loads s).
Proof.
  unfold json_loads. destruct (startswith [65279] s); [reflexivity|].
  pose proof (proj1 (scanner_no_exit (2 * List.length s + 2)) (skip_ws s)) as H.
  destruct (scan_once _ (skip_ws s)) as [[[v r]|e]|]; [| exact H | reflexivity].
  destruct (skip_ws r); [exact I | reflexivity].
Qed.

Lemma is_publish_no_exit (resp : value) : no_exit (is_publish resp).
Proof.
  unfold is_publish. destruct (truthy resp); [|exact I].
  destruct resp as [ | | |s|l|d]; try reflexivity; cbn [contains_str rbind].
  - destruct (substring _ s); [reflexivity | exact I].
  - destruct (existsb _ l); [reflexivity | exact I].
  - destruct (dict_mem _ d); [|exact I]. cbn [getitem_str].
    destruct (dict_get _ d); [exact I | reflexivity].
Qed.

Lemma getitem_str_no_exit (c : value) (k : str) : no_exit (getitem_str c k).
Proof.
  destruct c as [ | | | | |d]; try reflexivity. cbn [getitem_str].
  destruct (dict_get k d); [exact I | reflexivity].
Qed.

Lemma py_len_no_exit (c : value) : no_exit (py_len c).
Proof. destruct c; try reflexivity; exact I. Qed.

Lemma getitem_0_no_exit (c : value) : no_exit (getitem_0 c).
Proof. destruct c as [ | | |[|]|[|]| ]; try reflexivity; exact I. Qed.

Lemma contains_str_no_exit (s : str) (c : value) : no_exit (contains_str s c).
Proof. destruct c; try reflexivity; exact I. Qed.

End NoExit.

(** ** Tidy computations *)

Section Tidy.

Lemma tidy_ret {A : Type} (a : A) : tidy (ret a).
Proof. intros w r w' H. inversion H. reflexivity. Qed.

Lemma tidy_lift {A : Type} (r : result A) : no_exit r -> tidy (lift r).
Proof.
  intros Hr w r' w' H. inversion H; subst.
  destruct r' as [a|[]]; try reflexivity. discriminate Hr.
Qed.

Lemma tidy_raise {A : Type} (e : exn) : is_system_exit e = false -> tidy (@raise A e).
Proof. intros He. now apply (tidy_lift (Raise e)). Qed.

Lemma tidy_bind {A B : Type} (m : M A) (k : A -> M B) :
  tidy m -> (forall a, tidy (k a)) -> tidy (bind m k).
Proof.
  intros Hm Hk w r w' H. unfold bind in H.
  destruct (m w) as [[[a|e] w1]|] eqn:E; [| |discriminate].
  - pose proof (Hm _ _ _ E) as H1. cbn in H1.
    pose proof (Hk a _ _ _ H) as H2.
    destruct r as [b|[]]; cbn in *; congruence.
  - inversion H; subst. exact (Hm _ _ _ E).
Qed.

(** An effect that records an event other than [Terminate]. *)
Lemma tidy_emit {A : Type} (a : A) (e : event) :
  is_terminate e = false -> tidy (fun w => Some (Ok a, emit e w)).
Proof.
  intros He w r w' H. inversion H; subst.
  rewrite terminated_emit, He. apply orb_false_r.
Qed.

Lemma tidy_print (text : string) (arg : option value) : tidy (print text arg).
Proof. now apply tidy_emit. Qed.

Lemma tidy_popen (path : string) : tidy (popen path).
Proof. now apply tidy_emit. Qed.

Lemma tidy_readline : tidy readline.
Proof.
  intros w r w' H. unfold readline in H.
  destruct (take_line (stdout w)) as [l rest]. inversion H; subst.
  rewrite terminated_emit. apply orb_false_r.
Qed.

Lemma tidy_read (n : Z) : tidy (read n).
Proof.
  intros w r w' H. unfold read in H.
  destruct (n <? -1); inversion H; subst; [reflexivity|].
  rewrite terminated_emit. apply orb_false_r.
Qed.

Lemma tidy_time : tidy time_time.
Proof.
  intros w r w' H. inversion H; subst.
  rewrite terminated_emit. apply orb_false_r.
Qed.

(** [terminate] then [sys.exit]: the one way out that is an exit. *)
Lemma tidy_terminate_exit {A : Type} (code : Z) :
  tidy (terminate ;; @sys_exit A code).
Proof.
  intros w r w' H. inversion H; subst.
  rewrite terminated_emit. apply orb_true_r.
Qed.

Lemma tidy_send_request (method : str) (params id : value) :
  tidy (send_request method params id).
Proof.
  intros w r w' H. rewrite send_request_run in H. inversion H; subst.
  rewrite !terminated_emit. cbn. now rewrite !orb_false_r.
Qed.

Lemma tidy_read_headers (fuel : nat) : forall h, tidy (read_headers fuel h).
Proof.
  induction fuel as [|k IH]; intros h; [intros w r w' H; discriminate|].
  cbn [read_headers]. apply tidy_bind; [apply tidy_readline|]. intros raw.
  apply tidy_bind; [apply tidy_lift, utf8_decode_no_exit|]. intros line.
  destruct line as [|c line]; [apply tidy_ret|].
  destruct (str_eqb (c :: line) CRLF); [apply tidy_ret|].
  destruct (split1 58 (c :: line)) as [[key value]|]; [apply IH | now apply tidy_raise].
Qed.

Lemma tidy_read_response : tidy read_response.
Proof.
  unfold read_response. apply tidy_bind.
  - intros w r w' H. exact (tidy_read_headers _ _ _ _ _ H).
  - intros headers. destruct (dict_get _ headers) as [text|]; [|apply tidy_ret].
    apply tidy_bind; [apply tidy_lift, py_int_no_exit|]. intros n.
    apply tidy_bind; [apply tidy_read|]. intros raw.
    apply tidy_bind; [apply tidy_lift, utf8_decode_no_exit|]. intros body.
    apply tidy_lift, json_loads_no_exit.
Qed.

Lemma tidy_handle (resp : value) : tidy (handle resp).
Proof.
  unfold handle.
  apply tidy_bind; [apply tidy_lift, is_publish_no_exit|]. intros [|]; [|apply tidy_ret].
  apply tidy_bind; [apply tidy_print|]. intros _.
  apply tidy_bind; [apply tidy_lift, getitem_str_no_exit|]. intros params.
  apply tidy_bind; [apply tidy_lift, getitem_str_no_exit|]. intros diags.
  apply tidy_bind; [apply tidy_lift, py_len_no_exit|]. intros n.
  destruct (n >? 0); [|apply tidy_ret].
  apply tidy_bind; [apply tidy_lift, getitem_0_no_exit|]. intros d0.
  apply tidy_bind; [apply tidy_lift, getitem_str_no_exit|]. intros msg.
  apply tidy_bind; [apply tidy_lift, contains_str_no_exit|]. intros [|].
  - apply tidy_bind; [apply tidy_print|]. intros _. apply tidy_terminate_exit.
  - apply tidy_bind; [apply tidy_print|]. intros _. apply tidy_terminate_exit.
Qed.

Lemma tidy_wait_loop (fuel : nat) (start : Q) : tidy (wait_loop fuel start).
Proof.
  induction fuel as [|k IH]; [intros w r w' H; discriminate|].
  cbn [wait_loop]. apply tidy_bind; [apply tidy_time|]. intros now.
  destruct (Qltb (now - start) 5); [|apply tidy_ret].
  apply tidy_bind; [apply tidy_read_response|]. intros resp.
  apply tidy_bind; [apply tidy_handle|]. intros _. exact IH.
Qed.

Lemma tidy_report_timeout : tidy report_timeout.
Proof.
  unfold report_timeout. apply tidy_bind; [apply tidy_print|]. intros _.
  apply tidy_terminate_exit.
Qed.

Lemma tidy_main (fuel : nat) : tidy (main fuel).
Proof.
  unfold main.
  apply tidy_bind; [apply tidy_print | intros _].
  apply tidy_bind; [apply tidy_popen | intros _].
  apply tidy_bind; [apply tidy_print | intros _].
  apply tidy_bind; [apply tidy_send_request | intros _].
  apply tidy_bind; [apply tidy_read_response | intros resp].
  apply tidy_bind; [apply tidy_print | intros _].
  apply tidy_bind; [apply tidy_send_request | intros _].
  apply tidy_bind; [apply tidy_print | intros _].
  apply tidy_bind; [apply tidy_send_request | intros _].
  apply tidy_bind; [apply tidy_print | intros _].
  apply tidy_bind; [apply tidy_time | intros start].
  apply tidy_bind; [apply tidy_wait_loop | intros _].
  exact tidy_report_timeout.
Qed.

End Tidy.

(** ** The run of [main] *)

Section MainRun.

Lemma bind_print {B : Type} (text : string) (arg : option value) (k : unit -> M B) (w : world) :
  bind (print text arg) k w = k tt (emit (Print text arg) w).
Proof. reflexivity. Qed.

Lemma bind_popen {B : Type} (path : string) (k : unit -> M B) (w : world) :
  bind (popen path) k w = k tt (emit (Spawn path) w).
Proof. reflexivity. Qed.

Lemma bind_send_request {B : Type} (method : str) (params id : value)
      (k : unit -> M B) (w : world) :
  bind (send_request method params id) k w =
  k tt (emit Flush (emit (Write (frame_of (request method params id))) w)).
Proof. unfold bind. now rewrite send_request_run. Qed.

Lemma bind_time {B : Type} (k : Q -> M B) (w : world) :
  bind time_time k w = k (clock w (ticks w)) (tick w).
Proof. reflexivity. Qed.

(** [main] up to the wait loop: the first receive decides whether the
    loop is reached. *)
Lemma main_run (fuel : nat) (out : bytes) (clk : nat -> Q) :
  main fuel (initial out clk) =
  match read_response (mkWorld out clk 0 greeting) with
  | Some (Ok resp, w1) =>
      bind (wait_loop fuel (clock w1 (ticks w1))) (fun _ => report_timeout) (opened resp w1)
  | Some (Raise e, w1) => Some (Raise e, w1)
  | None => None
  end.
Proof.
  unfold main.
  rewrite bind_print, bind_popen, bind_print, bind_send_request.
  change (emit Flush _) with (mkWorld out clk 0 greeting).
  unfold bind at 1.
  destruct (read_response (mkWorld out clk 0 greeting)) as [[[resp|e] w1]|];
    [|reflexivity..].
  rewrite bind_print, bind_send_request, bind_print, bind_send_request, bind_print.
  rewrite bind_time. reflexivity.
Qed.

Lemma read_response_eof (clk : nat -> Q) (tk : nat) (tr : list event) :
  read_response (mkWorld [] clk tk tr) =
  Some (Ok VNull, mkWorld [] clk tk (tr ++ [Readline []])).
Proof. reflexivity. Qed.

Lemma report_timeout_run (w : world) :
  report_timeout w =
  Some (Raise (SystemExit 1),
        emit Terminate (emit (Print "FAILURE: Timed out waiting for diagnostics" None) w)).
Proof. reflexivity. Qed.

Lemma handle_none (w : world) : handle VNull w = Some (Ok tt, w).
Proof. reflexivity. Qed.

(** The wait loop when nothing that counts arrives: [k] turns, then the
    deadline. *)
Lemma wait_loop_quiet (start : Q) (clk : nat -> Q) (k : nat) :
  forall msgs fuel tk tr,
    forallb value_ok msgs = true ->
    forallb passed_over msgs = true ->
    (forall i, (i < k)%nat -> Qltb (clk (tk + i)%nat - start) 5 = true) ->
    Qltb (clk (tk + k)%nat - start) 5 = false ->
    (k < fuel)%nat ->
    exists w',
      wait_loop fuel start (mkWorld (flat_map frame_of msgs) clk tk tr) = Some (Ok tt, w').
Proof.
  induction k as [|k IH]; intros msgs fuel tk tr Hok Hpass Hbefore Hafter Hfuel;
    (destruct fuel as [|f]; [lia|]); rewrite wait_loop_turn; cbn [clock ticks].
  - rewrite Nat.add_0_r in Hafter. rewrite Hafter. eexists. reflexivity.
  - pose proof (Hbefore O ltac:(lia)) as H0. rewrite Nat.add_0_r in H0. rewrite H0.
    assert (Hbefore' : forall i, (i < k)%nat -> Qltb (clk (S tk + i)%nat - start) 5 = true).
    { intros i Hi. specialize (Hbefore (S i) ltac:(lia)).
      now rewrite Nat.add_succ_r in Hbefore. }
    assert (Hafter' : Qltb (clk (S tk + k)%nat - start) 5 = false)
      by (now rewrite Nat.add_succ_r in Hafter).
    unfold tick. cbn [stdout clock ticks trace].
    destruct msgs as [|m msgs].
    + cbn [flat_map]. erewrite bind_ok by apply read_response_eof.
      unfold bind at 1. cbn [handle].
      apply (IH [] f (S tk) _ eq_refl eq_refl Hbefore' Hafter' ltac:(lia)).
    + cbn [forallb] in Hok, Hpass.
      apply andb_true_iff in Hok as [Hm Hok]. apply andb_true_iff in Hpass as [Hpm Hpass].
      cbn [flat_map]. change (frame_of m) with (frame (dumps m)).
      unfold bind at 1. rewrite read_response_frame, decode_body_dumps by assumption.
      unfold bind at 1.
      destruct (handle_passed_over m
                  (mkWorld (flat_map frame_of msgs) clk (S tk)
                     ((tr ++ [Time (clk tk)]) ++
                      [Readline (field_line (length_field (Z.of_nat (List.length (dumps m)))));
                       Readline CRLF;
                       Read (Z.of_nat (List.length (dumps m))) (dumps m)])) Hpm)
        as [E|E]; rewrite E.
      * apply (IH msgs f (S tk) _ Hok Hpass Hbefore' Hafter' ltac:(lia)).
      * unfold emit. cbn [stdout clock ticks trace].
        apply (IH msgs f (S tk) _ Hok Hpass Hbefore' Hafter' ltac:(lia)).
Qed.

(** The same at the end of the stream, with the trace spelled out. *)
Lemma wait_loop_eof (start : Q) (clk : nat -> Q) (k : nat) :
  forall fuel tk tr,
    (forall i, (i < k)%nat -> Qltb (clk (tk + i)%nat - start) 5 = true) ->
    Qltb (clk (tk + k)%nat - start) 5 = false ->
    (k < fuel)%nat ->
    wait_loop fuel start (mkWorld [] clk tk tr) =
    Some (Ok tt, mkWorld [] clk (S (tk + k)) (tr ++ eof_turns clk tk k)).
Proof.
  induction k as [|k IH]; intros fuel tk tr Hbefore Hafter Hfuel;
    (destruct fuel as [|f]; [lia|]); rewrite wait_loop_turn; cbn [clock ticks].
  - rewrite Nat.add_0_r in *. rewrite Hafter. reflexivity.
  - pose proof (Hbefore O ltac:(lia)) as H0. rewrite Nat.add_0_r in H0. rewrite H0.
    unfold tick. cbn [stdout clock ticks trace].
    erewrite bind_ok by apply read_response_eof.
    unfold bind at 1. rewrite handle_none.
    rewrite IH.
    + rewrite Nat.add_succ_r. cbn [eof_turns Nat.add].
      rewrite <- !app_assoc. reflexivity.
    + intros i Hi. specialize (Hbefore (S i) ltac:(lia)).
      now rewrite Nat.add_succ_r in Hbefore.
    + now rewrite Nat.add_succ_r in Hafter.
    + lia.
Qed.

Lemma readlines_app (a b : list event) :
  readlines (a ++ b) = (readlines a + readlines b)%nat.
Proof. unfold readlines. now rewrite filter_app, length_app. Qed.

Lemma readlines_eof_turns (clk : nat -> Q) (k : nat) :
  forall tk, readlines (eof_turns clk tk k) = k.
Proof.
  induction k as [|k IH]; intros tk; [reflexivity|].
  cbn [eof_turns]. change (readlines (Time (clk tk) :: Readline [] :: ?t))
    with (S (readlines t)). now rewrite IH.
Qed.

End MainRun.

(** * The claims about the deadline, the end of the stream and the exits *)






(** C8, as the code has it.  Whatever the subprocess sends and whatever
    the clock shows, [terminate] has been called when [main] ends if and
    only if [main] ends through [sys.exit], which it does on success, on a
    content mismatch and on the timeout; when an error is raised, in a
    receive or anywhere else, the exception leaves [main] and [terminate]
    is not attempted. *)
Theorem terminate_only_before_exit
        (fuel : nat) (w w' : world) (r : result unit) :
  terminated (trace w) = false ->
  main fuel w = Some (r, w') ->
  (terminated (trace w') = true <-> exists code, r = Raise (SystemExit code)).
Proof.
  intros Hstart Hrun. pose proof (tidy_main fuel w r w' Hrun) as H.
  destruct r as [u|e].
  - rewrite H, Hstart. split; [discriminate | intros [code E]; discriminate].
  - destruct e; try (rewrite H, Hstart; split; [discriminate | intros [c E]; discriminate]).
    split; [eauto | intros _; exact H].
Qed.

Lemma terminate_only_before_exit_witness :
  let w := initial (lit "garbage" ++ CRLF) (fun _ => 0%Q) in
  let w' := match main 1 w with Some (_, w') => w' | None => w end in
  terminated (trace w') = true <->
  exists code, @Raise unit ValueError = Raise (SystemExit code).
Proof.
  intros w w'.
  apply (terminate_only_before_exit 1 w w' (Raise ValueError));
    vm_compute; reflexivity.
Defined.

(** C8, as the claim has it, fails: a header line without colon, a length
    that is not a number and a body that is not JSON each raise in the
    first receive, and [main] ends with the exception, [terminate] not
    called. *)
Lemma receive_error_skips_terminate :
  let run out :=
    match main 3 (initial out (fun _ => 0%Q)) with
    | Some (r, w) => Some (r, terminated (trace w))
    | None => None
    end in
  run (lit "garbage" ++ CRLF) = Some (Raise ValueError, false) /\
  run (lit "Content-Length: abc" ++ CRLF ++ CRLF) = Some (Raise ValueError, false) /\
  run (lit "Content-Length: 1" ++ CRLF ++ CRLF ++ lit "{") = Some (Raise JSONDecodeError, false).
Proof. vm_compute. repeat split. Qed.

(** * Further properties of the script *)

(** ** What a computation may do to the world *)

Section Within.

Variable allowed : event -> bool.

Lemma consumed_app (a b : list event) : consumed (a ++ b) = consumed a ++ consumed b.
Proof. unfold consumed. apply flat_map_app. Qed.

Lemma times_app (a b : list event) : times (a ++ b) = (times a + times b)%nat.
Proof. unfold times. now rewrite filter_app, length_app. Qed.

Lemma within_refl (w : world) : within allowed w w.
Proof.
  split; [reflexivity|]. exists []. rewrite app_nil_r. cbn. auto.
Qed.

Lemma within_trans (w1 w2 w3 : world) :
  within allowed w1 w2 -> within allowed w2 w3 -> within allowed w1 w3.
Proof.
  intros (Hc1 & e1 & Ht1 & Ha1 & Hs1 & Hk1) (Hc2 & e2 & Ht2 & Ha2 & Hs2 & Hk2).
  split; [congruence|]. exists (e1 ++ e2). repeat split.
  - now rewrite Ht2, Ht1, app_assoc.
  - now rewrite forallb_app, Ha1, Ha2.
  - now rewrite consumed_app, <- app_assoc, Hs2, Hs1.
  - rewrite times_app, Hk2, Hk1. lia.
Qed.

Lemma keeps_ret {A : Type} (a : A) : keeps allowed (ret a).
Proof. intros w r w' H. inversion H. apply within_refl. Qed.

Lemma keeps_lift {A : Type} (r : result A) : keeps allowed (lift r).
Proof. intros w r' w' H. inversion H. apply within_refl. Qed.

Lemma keeps_raise {A : Type} (e : exn) : keeps allowed (@raise A e).
Proof. intros w r' w' H. inversion H. apply within_refl. Qed.

Lemma keeps_bind {A B : Type} (m : M A) (k : A -> M B) :
  keeps allowed m -> (forall a, keeps allowed (k a)) -> keeps allowed (bind m k).
Proof.
  intros Hm Hk w r w' H. unfold bind in H.
  destruct (m w) as [[[a|e] w1]|] eqn:E; [| |discriminate].
  - eapply within_trans; [exact (Hm _ _ _ E) | exact (Hk a _ _ _ H)].
  - inversion H; subst. exact (Hm _ _ _ E).
Qed.

(** An effect that records one event and touches nothing else. *)
Lemma keeps_emit {A : Type} (a : A) (e : event) :
  allowed e = true -> is_read e = false -> is_time e = false ->
  keeps allowed (fun w => Some (Ok a, emit e w)).
Proof.
  intros Ha Hr Ht w r w' H. inversion H; subst.
  split; [reflexivity|]. exists [e]. cbn [emit trace stdout ticks forallb].
  rewrite Ha. repeat split.
  - destruct e; try discriminate; reflexivity.
  - unfold times. cbn [filter]. rewrite Ht. cbn. lia.
Qed.

Lemma keeps_readline : (forall d, allowed (Readline d) = true) -> keeps allowed readline.
Proof.
  intros Ha w r w' H. unfold readline in H.
  destruct (take_line (stdout w)) as [l rest] eqn:E. inversion H; subst.
  destruct (take_line_split _ _ _ E) as [Hs _].
  split; [reflexivity|]. exists [Readline l]. cbn [emit trace stdout ticks forallb].
  repeat split.
  - now rewrite Ha.
  - cbn. now rewrite app_nil_r.
  - cbn. lia.
Qed.

Lemma keeps_read (n : Z) : (forall k d, allowed (Read k d) = true) -> keeps allowed (read n).
Proof.
  intros Ha w r w' H. unfold read in H.
  destruct (n <? -1); inversion H; subst; [apply within_refl|].
  split; [reflexivity|]. eexists [Read n _]. cbn [emit trace stdout ticks forallb].
  repeat split.
  - now rewrite Ha.
  - cbn. rewrite app_nil_r. apply firstn_skipn.
  - cbn. lia.
Qed.

Lemma keeps_time : (forall t, allowed (Time t) = true) -> keeps allowed time_time.
Proof.
  intros Ha w r w' H. inversion H; subst.
  split; [reflexivity|]. exists [Time (clock w (ticks w))].
  cbn [emit trace stdout ticks forallb]. repeat split.
  - now rewrite Ha.
  - cbn. lia.
Qed.

End Within.

Section Kinds.

Lemma within_weaken (p q : event -> bool) (w w' : world) :
  (forall e, p e = true -> q e = true) -> within p w w' -> within q w w'.
Proof.
  intros Hpq (Hc & evs & Ht & Ha & Hs & Hk). split; [exact Hc|].
  exists evs. repeat split; try assumption.
  rewrite forallb_forall in *. auto.
Qed.

Lemma keeps_weaken {A : Type} (p q : event -> bool) (m : M A) :
  (forall e, p e = true -> q e = true) -> keeps p m -> keeps q m.
Proof. intros Hpq Hm w r w' H. eapply within_weaken; eauto. Qed.

Lemma keeps_read_headers (fuel : nat) : forall h, keeps is_read (read_headers fuel h).
Proof.
  induction fuel as [|k IH]; intros h; [intros w r w' H; discriminate|].
  cbn [read_headers]. apply keeps_bind; [now apply keeps_readline|]. intros raw.
  apply keeps_bind; [apply keeps_lift|]. intros line.
  destruct line as [|c line]; [apply keeps_ret|].
  destruct (str_eqb (c :: line) CRLF); [apply keeps_ret|].
  destruct (split1 58 (c :: line)) as [[key value]|]; [apply IH | apply keeps_raise].
Qed.

Lemma keeps_read_response : keeps is_read read_response.
Proof.
  unfold read_response. apply keeps_bind.
  - intros w r w' H. exact (keeps_read_headers _ _ _ _ _ H).
  - intros headers. destruct (dict_get _ headers) as [text|]; [|apply keeps_ret].
    apply keeps_bind; [apply keeps_lift|]. intros n.
    apply keeps_bind; [now apply keeps_read|]. intros raw.
    apply keeps_bind; [apply keeps_lift|]. intros body.
    apply keeps_lift.
Qed.

Lemma keeps_print (text : string) (arg : option value) : keeps is_report (print text arg).
Proof. now apply keeps_emit. Qed.

Lemma keeps_terminate_exit {A : Type} (code : Z) :
  keeps is_report (terminate ;; @sys_exit A code).
Proof.
  apply keeps_bind; [now apply (keeps_emit is_report tt Terminate)|].
  intros _. apply keeps_raise.
Qed.

Lemma keeps_handle (resp : value) : keeps is_report (handle resp).
Proof.
  unfold handle.
  apply keeps_bind; [apply keeps_lift|]. intros [|]; [|apply keeps_ret].
  apply keeps_bind; [apply keeps_print|]. intros _.
  apply keeps_bind; [apply keeps_lift|]. intros params.
  apply keeps_bind; [apply keeps_lift|]. intros diags.
  apply keeps_bind; [apply keeps_lift|]. intros n.
  destruct (n >? 0); [|apply keeps_ret].
  apply keeps_bind; [apply keeps_lift|]. intros d0.
  apply keeps_bind; [apply keeps_lift|]. intros msg.
  apply keeps_bind; [apply keeps_lift|]. intros [|].
  - apply keeps_bind; [apply keeps_print|]. intros _. apply keeps_terminate_exit.
  - apply keeps_bind; [apply keeps_print|]. intros _. apply keeps_terminate_exit.
Qed.

Lemma keeps_wait_loop (fuel : nat) (start : Q) : keeps is_loop_event (wait_loop fuel start).
Proof.
  induction fuel as [|k IH]; [intros w r w' H; discriminate|].
  cbn [wait_loop]. apply keeps_bind; [now apply keeps_time|]. intros now.
  destruct (Qltb (now - start) 5); [|apply keeps_ret].
  apply keeps_bind.
  { apply (keeps_weaken is_read); [|apply keeps_read_response].
    intros e He. unfold is_loop_event. now rewrite He. }
  intros resp. apply keeps_bind; [|intros _; exact IH].
  apply (keeps_weaken is_report); [|apply keeps_handle].
  intros e He. unfold is_loop_event. rewrite He. now rewrite orb_true_r.
Qed.

Lemma keeps_report_timeout : keeps is_loop_event report_timeout.
Proof.
  apply (keeps_weaken is_report).
  - intros e He. unfold is_loop_event. rewrite He. now rewrite orb_true_r.
  - unfold report_timeout. apply keeps_bind; [apply keeps_print|]. intros _.
    apply keeps_terminate_exit.
Qed.

End Kinds.

(** ** The header loop comes to an end *)

Section Ends.

Lemma ends_bind {A B : Type} (m : M A) (k : A -> M B) :
  ends m -> (forall a, ends (k a)) -> ends (bind m k).
Proof.
  intros Hm Hk w. unfold bind. destruct (Hm w) as (r & w1 & E). rewrite E.
  destruct r as [a|e]; [apply Hk | eauto].
Qed.

Lemma ends_lift {A : Type} (r : result A) : ends (lift r).
Proof. intros w. unfold lift. eauto. Qed.

Lemma ends_ret {A : Type} (a : A) : ends (ret a).
Proof. intros w. unfold ret. eauto. Qed.

Lemma ends_print (text : string) (arg : option value) : ends (print text arg).
Proof. intros w. unfold print. eauto. Qed.

Lemma ends_read (n : Z) : ends (read n).
Proof. intros w. unfold read. destruct (n <? -1); eauto. Qed.

Lemma ends_terminate_exit {A : Type} (code : Z) : ends (terminate ;; @sys_exit A code).
Proof. intros w. eexists _, _. reflexivity. Qed.

(** Every turn of the loop but the last takes at least one byte, so a
    budget above the length of the stream is never used up. *)
Lemma read_headers_ends (fuel : nat) :
  forall h w, (List.length (stdout w) < fuel)%nat ->
    exists r w', read_headers fuel h w = Some (r, w').
Proof.
  induction fuel as [|k IH]; intros h w Hlen; [lia|].
  cbn [read_headers]. unfold bind at 1. unfold readline.
  destruct (take_line (stdout w)) as [l rest] eqn:E.
  destruct (take_line_split _ _ _ E) as [Hs _].
  unfold bind at 1. unfold lift.
  destruct (utf8_decode l) as [line|e] eqn:Hd; [|eauto].
  destruct line as [|c line]; [unfold ret; eauto|].
  destruct (str_eqb (c :: line) CRLF); [unfold ret; eauto|].
  destruct (split1 58 (c :: line)) as [[key value]|]; [|unfold raise; eauto].
  apply IH. unfold emit. cbn [stdout].
  destruct l as [|b l']; [discriminate Hd|].
  rewrite Hs in Hlen. rewrite length_app in Hlen. cbn [List.length] in Hlen. lia.
Qed.

Lemma ends_handle (resp : value) : ends (handle resp).
Proof.
  unfold handle.
  apply ends_bind; [apply ends_lift|]. intros [|]; [|apply ends_ret].
  apply ends_bind; [apply ends_print|]. intros _.
  apply ends_bind; [apply ends_lift|]. intros params.
  apply ends_bind; [apply ends_lift|]. intros diags.
  apply ends_bind; [apply ends_lift|]. intros n.
  destruct (n >? 0); [|apply ends_ret].
  apply ends_bind; [apply ends_lift|]. intros d0.
  apply ends_bind; [apply ends_lift|]. intros msg.
  apply ends_bind; [apply ends_lift|]. intros [|].
  - apply ends_bind; [apply ends_print|]. intros _. apply ends_terminate_exit.
  - apply ends_bind; [apply ends_print|]. intros _. apply ends_terminate_exit.
Qed.

End Ends.

(** * Further properties of [read_response] *)

(** X1. [read_response] comes to an end on every stream: the [while True]
    loop over the header lines stops at the empty line, at the end of the
    stream or with an exception, whatever bytes the subprocess sent. *)
Theorem read_response_ends : ends read_response.
Proof.
  unfold read_response. apply ends_bind.
  - intros w. apply read_headers_ends. lia.
  - intros headers. destruct (dict_get _ headers) as [text|]; [|apply ends_ret].
    apply ends_bind; [apply ends_lift|]. intros n.
    apply ends_bind; [apply ends_read|]. intros raw.
    apply ends_bind; [apply ends_lift|]. intros body.
    apply ends_lift.
Qed.

(** X2. [read_response] only reads: whether it returns or raises, all it
    adds to the trace are [readline] and [read] calls, it reads no clock,
    and the bytes these calls took, followed by what is left of the
    subprocess's output, are the output it found: no byte is dropped and
    none is taken twice. *)
Theorem read_response_only_reads (w w' : world) (r : result value) :
  read_response w = Some (r, w') ->
  clock w' = clock w /\ ticks w' = ticks w /\
  exists evs,
    trace w' = trace w ++ evs /\
    forallb is_read evs = true /\
    consumed evs ++ stdout w' = stdout w.
Proof.
  intros H. destruct (keeps_read_response w r w' H) as (Hc & evs & Ht & Ha & Hs & Hk).
  split; [exact Hc|]. split.
  - rewrite Hk. assert (Hz : times evs = O); [|lia].
    clear -Ha. unfold times. induction evs as [|e evs IH]; [reflexivity|].
    cbn [forallb] in Ha. apply andb_true_iff in Ha as [He Ha].
    cbn [filter]. destruct e; try discriminate He; cbn [is_time]; auto.
  - exists evs. auto.
Qed.

Lemma read_response_only_reads_witness :
  let w := initial (frame (lit "{") ++ lit "next") (fun _ => 0%Q) in
  let w' := match read_response w with Some (_, w') => w' | None => w end in
  clock w' = clock w /\ ticks w' = ticks w /\
  exists evs,
    trace w' = trace w ++ evs /\
    forallb is_read evs = true /\
    consumed evs ++ stdout w' = stdout w.
Proof.
  intros w w'.
  apply (read_response_only_reads w w' (Raise JSONDecodeError)).
  vm_compute. reflexivity.
Defined.



(** X4. Among the header fields only the length field counts, and of
    several length fields the last: whatever well-formed fields come
    before (other length fields among them) and whatever other fields come
    after, [read_response] reads the body that the last field named
    [Content-Length] declares. *)
Theorem last_length_field_decides
        (clk : nat -> Q) (fields more : list (str * str)) (kv : str * str)
        (rest : bytes) (tk : nat) (tr : list event) :
  forallb field_ok (fields ++ kv :: more) = true ->
  is_length_field kv = true ->
  existsb is_length_field more = false ->
  read_response
    (mkWorld (header_block (fields ++ kv :: more) ++ CRLF ++ rest) clk tk tr) =
  read_body (strip (snd kv))
    (mkWorld rest clk tk (tr ++ line_events (fields ++ kv :: more) ++ [Readline CRLF])).
Proof.
  intros Hok Hkv Hmore. rewrite read_response_block by assumption.
  unfold headers_of. rewrite fold_left_app. cbn [fold_left].
  fold (headers_of fields []).
  fold (headers_of more (dict_set (strip (fst kv)) (strip (snd kv)) (headers_of fields []))).
  rewrite headers_of_other, dict_get_set by assumption.
  unfold is_length_field in Hkv. now rewrite str_eqb_sym, Hkv.
Qed.

Lemma last_length_field_decides_witness :
  read_response
    (initial (header_block [(lit "Content-Length", lit " 7");
                            (lit "Content-Length", lit " 2");
                            (lit "Content-Type", lit " x")]
                ++ CRLF ++ lit "{}[]") (fun _ => 0%Q)) =
  read_body (strip (lit " 2"))
    (mkWorld (lit "{}[]") (fun _ => 0%Q) 0
       ([] ++ line_events [(lit "Content-Length", lit " 7");
                           (lit "Content-Length", lit " 2");
                           (lit "Content-Type", lit " x")] ++ [Readline CRLF])).
Proof.
  apply (last_length_field_decides (fun _ => 0%Q)
           [(lit "Content-Length", lit " 7")] [(lit "Content-Type", lit " x")]
           (lit "Content-Length", lit " 2") (lit "{}[]") 0%nat []); reflexivity.
Defined.

(** ** The length field: padding and negative numbers *)

Section LengthField.

Variable clk : nat -> Q.

Lemma lstrip_app_left (p s : str) : all_space p = true -> lstrip (p ++ s) = lstrip s.
Proof.
  induction p as [|c p IH]; [reflexivity|].
  cbn [all_space forallb app lstrip]. intros H. apply andb_true_iff in H as [-> H].
  now apply IH.
Qed.

(** White space on both sides of a text does not survive [strip]. *)
Lemma strip_padded (p1 s p2 : str) :
  all_space p1 = true -> all_space p2 = true -> strip (p1 ++ s ++ p2) = strip s.
Proof.
  intros H1 H2. unfold strip at 1. rewrite lstrip_app_left by assumption.
  fold (strip (s ++ p2)). now apply strip_app_space.
Qed.

(** The body phase, once [int] has read the length. *)
Lemma read_body_run (text : str) (n : Z) (s : bytes) (tk : nat) (tr : list event) :
  py_int text = Ok n ->
  read_body text (mkWorld s clk tk tr) =
  if n <? -1 then Some (Raise ValueError, mkWorld s clk tk tr)
  else
    let k := if n =? -1 then List.length s else Z.to_nat n in
    Some (decode_body (firstn k s),
          mkWorld (skipn k s) clk tk (tr ++ [Read n (firstn k s)])).
Proof.
  intros Hn. unfold read_body. rewrite Hn, bind_lift_ok.
  unfold bind at 1. unfold read. cbn [stdout clock ticks trace].
  destruct (n <? -1); [reflexivity|].
  unfold emit. cbn [stdout clock ticks trace]. unfold decode_body.
  destruct (utf8_decode _) as [body|e]; reflexivity.
Qed.

Lemma py_int_negative (m : Z) : 0 < m -> py_int (45 :: decimal m) = Ok (- m).
Proof.
  intros Hm. pose proof (decimal_digits m ltac:(lia)) as Hds.
  pose proof (dec_value_decimal m ltac:(lia)) as Hv.
  destruct (decimal_head m ltac:(lia)) as (d & r & E & Hd & _).
  unfold py_int. cbn [existsb]. rewrite digits_ascii_only by assumption.
  change ((128 <=? 45) && negb (is_space 45)) with false. cbn [orb].
  cbn [skip_int_space]. change (is_int_space 45) with false. cbv iota.
  change (45 =? 45) with true. cbv iota.
  rewrite E in *. assert (Hd1 : is_digit d = true) by (unfold is_digit; lia).
  rewrite Hd1. rewrite int_digits_all by (auto; left; discriminate).
  simpl. now rewrite Hv.
Qed.

Lemma strip_minus_digits (ds : str) :
  Forall (fun c => is_digit c = true) ds -> ds <> [] -> strip (45 :: ds) = 45 :: ds.
Proof.
  intros Hds Hne. unfold strip. change (lstrip (45 :: ds)) with (45 :: ds).
  unfold rstrip. cbn [rev].
  assert (Hr : lstrip (rev ds ++ [45]) = rev ds ++ [45]).
  { pose proof (Forall_rev Hds) as Hrev.
    destruct (rev ds) as [|c t] eqn:E.
    - apply (f_equal (@rev Z)) in E. rewrite rev_involutive in E. now subst.
    - inversion Hrev; subst. cbn [app]. apply lstrip_id. now apply digit_not_space. }
  rewrite Hr, rev_app_distr, rev_involutive. reflexivity.
Qed.

End LengthField.





(** * Further properties of [send_request] *)

Section Printable.

Lemma printable_cons (c : Z) (s : list Z) :
  printable (c :: s) = true <-> 32 <= c <= 126 /\ printable s = true.
Proof.
  unfold printable. simpl. rewrite andb_true_iff. unfold in_range. intuition lia.
Qed.

Lemma printable_app (a b : list Z) : printable (a ++ b) = printable a && printable b.
Proof. unfold printable. apply forallb_app. Qed.

Lemma printable_flat_map {A : Type} (f : A -> list Z) (l : list A) :
  (forall x, printable (f x) = true) -> printable (flat_map f l) = true.
Proof.
  intros Hf. induction l as [|x l IH]; [reflexivity|].
  simpl. rewrite printable_app, Hf, IH. reflexivity.
Qed.

Lemma digits_printable (ds : str) :
  Forall (fun c => is_digit c = true) ds -> printable ds = true.
Proof.
  induction 1 as [|c ds Hc _ IH]; [reflexivity|].
  apply printable_cons. unfold is_digit in Hc. split; [lia | exact IH].
Qed.

Lemma int_repr_printable (n : Z) : printable (int_repr n) = true.
Proof.
  unfold int_repr. destruct (Z.ltb_spec n 0).
  - apply printable_cons. split; [lia|]. apply digits_printable, decimal_digits. lia.
  - apply digits_printable, decimal_digits. lia.
Qed.

Lemma u_escape_printable (c : Z) : printable (u_escape c) = true.
Proof.
  unfold u_escape, hex4.
  pose proof (hex_digit_ascii _ (land15_range (Z.shiftr c 12))).
  pose proof (hex_digit_ascii _ (land15_range (Z.shiftr c 8))).
  pose proof (hex_digit_ascii _ (land15_range (Z.shiftr c 4))).
  pose proof (hex_digit_ascii _ (land15_range c)).
  repeat (apply printable_cons; split; [lia|]). reflexivity.
Qed.

(** Every escape is printable: the seven short ones, a printable
    character as it is, and the hexadecimal ones. *)
Lemma escape_char_printable (c : Z) : printable (escape_char c) = true.
Proof.
  unfold escape_char.
  repeat match goal with
         | |- context [if ?b then _ else _] => destruct b eqn:?
         end;
    try reflexivity;
    try apply u_escape_printable;
    try (rewrite printable_app, !u_escape_printable; reflexivity).
  apply printable_cons. unfold in_range in *. split; [lia | reflexivity].
Qed.

Lemma encode_basestring_printable (s : str) :
  printable (encode_basestring_ascii s) = true.
Proof.
  unfold encode_basestring_ascii. apply printable_cons. split; [lia|].
  rewrite printable_app, printable_flat_map by apply escape_char_printable.
  reflexivity.
Qed.

Lemma join_printable (sep : str) (parts : list str) :
  printable sep = true -> Forall (fun p => printable p = true) parts ->
  printable (join sep parts) = true.
Proof.
  intros Hsep. induction 1 as [|p parts Hp Hparts IH]; [reflexivity|].
  cbn [join]. destruct parts as [|q parts]; [exact Hp|].
  rewrite !printable_app, Hp, Hsep, IH. reflexivity.
Qed.

Lemma dumps_printable (v : value) : printable (dumps v) = true.
Proof.
  induction v as [ |b|n|s|l IH|d IH] using value_induction.
  - reflexivity.
  - destruct b; reflexivity.
  - apply int_repr_printable.
  - apply encode_basestring_printable.
  - cbn [dumps]. apply printable_cons. split; [lia|].
    rewrite printable_app, join_printable; [reflexivity.. | ].
    apply Forall_map. exact IH.
  - cbn [dumps]. apply printable_cons. split; [lia|].
    rewrite printable_app, join_printable; [reflexivity.. | ].
    apply Forall_map. eapply Forall_impl; [|exact IH].
    intros kv Hkv. cbn beta.
    rewrite !printable_app, encode_basestring_printable, Hkv. reflexivity.
Qed.

End Printable.


(** * Further properties of the driver *)

(** ** Only the loop body exits *)

Section Quiet.

Lemma quiet_ret {A : Type} (a : A) : quiet (ret a).
Proof. intros w r w' H. inversion H. exact I. Qed.

Lemma quiet_lift {A : Type} (r : result A) : no_exit r -> quiet (lift r).
Proof. intros Hr w r' w' H. inversion H; subst. exact Hr. Qed.

Lemma quiet_raise {A : Type} (e : exn) : is_system_exit e = false -> quiet (@raise A e).
Proof. intros He. now apply (quiet_lift (Raise e)). Qed.

Lemma quiet_bind {A B : Type} (m : M A) (k : A -> M B) :
  quiet m -> (forall a, quiet (k a)) -> quiet (bind m k).
Proof.
  intros Hm Hk w r w' H. unfold bind in H.
  destruct (m w) as [[[a|e] w1]|] eqn:E; [| |discriminate].
  - exact (Hk a _ _ _ H).
  - inversion H; subst. exact (Hm _ _ _ E).
Qed.

Lemma quiet_readline : quiet readline.
Proof.
  intros w r w' H. unfold readline in H.
  destruct (take_line (stdout w)) as [l rest]. inversion H. exact I.
Qed.

Lemma quiet_read (n : Z) : quiet (read n).
Proof.
  intros w r w' H. unfold read in H.
  destruct (n <? -1); inversion H; [reflexivity | exact I].
Qed.

Lemma quiet_read_headers (fuel : nat) : forall h, quiet (read_headers fuel h).
Proof.
  induction fuel as [|k IH]; intros h; [intros w r w' H; discriminate|].
  cbn [read_headers]. apply quiet_bind; [apply quiet_readline|]. intros raw.
  apply quiet_bind; [apply quiet_lift, utf8_decode_no_exit|]. intros line.
  destruct line as [|c line]; [apply quiet_ret|].
  destruct (str_eqb (c :: line) CRLF); [apply quiet_ret|].
  destruct (split1 58 (c :: line)) as [[key value]|]; [apply IH | now apply quiet_raise].
Qed.

Lemma quiet_read_response : quiet read_response.
Proof.
  unfold read_response. apply quiet_bind.
  - intros w r w' H. exact (quiet_read_headers _ _ _ _ _ H).
  - intros headers. destruct (dict_get _ headers) as [text|]; [|apply quiet_ret].
    apply quiet_bind; [apply quiet_lift, py_int_no_exit|]. intros n.
    apply quiet_bind; [apply quiet_read|]. intros raw.
    apply quiet_bind; [apply quiet_lift, utf8_decode_no_exit|]. intros body.
    apply quiet_lift, json_loads_no_exit.
Qed.

(** One step of a run through a pure operation that did not stop it. *)
Ltac through H N x :=
  match type of H with
  | bind (lift ?r) _ _ = _ =>
      let E := fresh "E" x in
      let X := fresh "X" in
      let e := fresh "e" in
      destruct r as [x|e] eqn:E;
      [rewrite bind_lift_ok in H; cbv beta in H
      |rewrite bind_lift_raise in H; inversion H; subst;
       pose proof N as X; rewrite E in X; discriminate X]
  end.

(** When the loop body exits, it has printed the receipt, one of the two
    reports and called [terminate], in this order; with status 0 the
    message held the expected text. *)
Lemma handle_exit (resp : value) (w w' : world) (c : Z) :
  handle resp w = Some (Raise (SystemExit c), w') ->
  (c = 0 /\ accepted resp /\
   trace w' = trace w ++ [receipt resp; success_report; Terminate]) \/
  (c = 1 /\ exists msg,
      trace w' = trace w ++ [receipt resp; mismatch_report msg; Terminate]).
Proof.
  intros H. unfold handle in H.
  through H (is_publish_no_exit resp) hit.
  destruct hit; [|discriminate H].
  rewrite bind_print in H.
  through H (getitem_str_no_exit resp (lit "params")) params.
  through H (getitem_str_no_exit params (lit "diagnostics")) diags.
  through H (py_len_no_exit diags) n.
  destruct (n >? 0); [|discriminate H].
  through H (getitem_0_no_exit diags) d0.
  through H (getitem_str_no_exit d0 (lit "message")) msg.
  through H (contains_str_no_exit expected_text msg) found.
  destruct found.
  - left. inversion H; subst. split; [reflexivity|]. split.
    + split; [assumption|]. exists params, diags, d0, msg. auto.
    + unfold emit. cbn [trace]. rewrite <- !app_assoc. reflexivity.
  - right. inversion H; subst. split; [reflexivity|]. exists msg.
    unfold emit. cbn [trace]. rewrite <- !app_assoc. reflexivity.
Qed.

(** An exit of the wait loop is an exit of its body, in the turn that
    received a message. *)
Lemma wait_loop_exit (fuel : nat) (start : Q) :
  forall w w' c,
    wait_loop fuel start w = Some (Raise (SystemExit c), w') ->
    exists w1 w2 resp,
      read_response w1 = Some (Ok resp, w2) /\
      handle resp w2 = Some (Raise (SystemExit c), w').
Proof.
  induction fuel as [|k IH]; intros w w' c H; [discriminate|].
  rewrite wait_loop_turn in H.
  destruct (Qltb (clock w (ticks w) - start) 5); [|discriminate].
  unfold bind at 1 in H.
  destruct (read_response (tick w)) as [[[resp|e] w2]|] eqn:E; [| |discriminate].
  - unfold bind at 1 in H.
    destruct (handle resp w2) as [[[[]|e] w3]|] eqn:Eh; [| |discriminate].
    + exact (IH _ _ _ H).
    + inversion H; subst. eauto.
  - inversion H; subst. pose proof (quiet_read_response _ _ _ E) as X. discriminate X.
Qed.

End Quiet.

(** X8. [main] exits with status 0 only on the strength of a message it
    received: when the run ends with status 0, some [read_response] of the
    run returned a diagnostics notification whose first entry's message
    contains the expected text, and the last things [main] did were to
    print this message, to print the success report and to call
    [terminate].  No error, no timeout and no other message gives 0. *)
Theorem exit_zero_only_after_expected_diagnostic
        (fuel : nat) (out : bytes) (clk : nat -> Q) (r : result unit) (w' : world) :
  main fuel (initial out clk) = Some (r, w') ->
  exit_status r = 0 ->
  exists w1 w2 resp,
    read_response w1 = Some (Ok resp, w2) /\
    accepted resp /\
    trace w' = trace w2 ++ [receipt resp; success_report; Terminate].
Proof.
  intros H Hs. rewrite main_run in H.
  destruct (read_response (mkWorld out clk 0 greeting)) as [[[reply|e] w1]|] eqn:E;
    [| |discriminate].
  - unfold bind in H.
    destruct (wait_loop fuel (clock w1 (ticks w1)) (opened reply w1))
      as [[[[]|e] w2]|] eqn:El; [| |discriminate].
    + rewrite report_timeout_run in H. inversion H; subst. discriminate Hs.
    + inversion H; subst. destruct e; try discriminate Hs.
      cbn [exit_status] in Hs. subst code.
      apply wait_loop_exit in El as (v1 & v2 & resp & Hr & Hh).
      apply handle_exit in Hh as [(_ & Ha & Ht)|(Hc & _)]; [|discriminate Hc].
      exists v1, v2, resp. auto.
  - inversion H; subst. pose proof (quiet_read_response _ _ _ E) as X.
    destruct e; try discriminate Hs. discriminate X.
Qed.

Lemma exit_zero_only_after_expected_diagnostic_witness :
  let reply := VDict [(lit "id", VInt 1)] in
  let note :=
    VDict [(lit "method", VStr publish_method);
           (lit "params",
            VDict [(lit "diagnostics",
                    VList [VDict [(lit "message", VStr (lit "Unknown word: Helllo"))]])])] in
  let w := initial (frame_of reply ++ frame_of note) (fun _ => 0%Q) in
  let r := match main 2 w with Some (r, _) => r | None => Ok tt end in
  let w' := match main 2 w with Some (_, w') => w' | None => w end in
  exit_status r = 0 /\
  exists w1 w2 resp,
    read_response w1 = Some (Ok resp, w2) /\
    accepted resp /\
    trace w' = trace w2 ++ [receipt resp; success_report; Terminate].
Proof.
  intros reply note w r w'. split; [vm_compute; reflexivity|].
  apply (exit_zero_only_after_expected_diagnostic
           2 (frame_of reply ++ frame_of note) (fun _ => 0%Q) r w').
  - vm_compute. reflexivity.
  - vm_compute. reflexivity.
Defined.

(** ** The loop ends with the clock *)

Section Deadline.

Lemma times_none (p : event -> bool) (evs : list event) :
  (forall e, p e = true -> is_time e = false) ->
  forallb p evs = true -> times evs = 0%nat.
Proof.
  intros Hp. induction evs as [|e evs IH]; [reflexivity|].
  cbn [forallb]. intros H. apply andb_true_iff in H as [He H].
  unfold times in *. cbn [filter]. rewrite (Hp e He). now apply IH.
Qed.

Lemma is_read_not_time (e : event) : is_read e = true -> is_time e = false.
Proof. now destruct e. Qed.

Lemma is_report_not_time (e : event) : is_report e = true -> is_time e = false.
Proof. now destruct e. Qed.

(** A receive and the loop body leave the clock alone. *)
Lemma read_response_clock (w w' : world) (r : result value) :
  read_response w = Some (r, w') -> clock w' = clock w /\ ticks w' = ticks w.
Proof.
  intros H. destruct (keeps_read_response _ _ _ H) as (Hc & evs & _ & Ha & _ & Hk).
  rewrite (times_none is_read evs is_read_not_time Ha) in Hk. split; [exact Hc | lia].
Qed.

Lemma handle_clock (resp : value) (w w' : world) (r : result unit) :
  handle resp w = Some (r, w') -> clock w' = clock w /\ ticks w' = ticks w.
Proof.
  intros H. destruct (keeps_handle resp _ _ _ H) as (Hc & evs & _ & Ha & _ & Hk).
  rewrite (times_none is_report evs is_report_not_time Ha) in Hk. split; [exact Hc | lia].
Qed.

(** Each turn reads the clock once, so the loop has ended by the first
    reading that is past the deadline, whatever the stream holds. *)
Lemma wait_loop_ends (start : Q) (k : nat) :
  forall fuel w,
    Qltb (clock w (ticks w + k)%nat - start) 5 = false ->
    (k < fuel)%nat ->
    exists r w',
      wait_loop fuel start w = Some (r, w') /\ (ticks w' <= ticks w + S k)%nat.
Proof.
  induction k as [|k IH]; intros fuel w Hlate Hfuel;
    (destruct fuel as [|f]; [lia|]); rewrite wait_loop_turn.
  - rewrite Nat.add_0_r in Hlate. rewrite Hlate.
    eexists _, _. split; [reflexivity|]. cbn [tick ticks]. lia.
  - destruct (Qltb (clock w (ticks w) - start) 5).
    2:{ eexists _, _. split; [reflexivity|]. cbn [tick ticks]. lia. }
    destruct (read_response_ends (tick w)) as (r1 & w1 & E1).
    destruct (read_response_clock _ _ _ E1) as [Hc1 Ht1]. cbn [tick clock ticks] in Hc1, Ht1.
    unfold bind at 1. rewrite E1.
    destruct r1 as [resp|e].
    2:{ eexists _, _. split; [reflexivity|]. lia. }
    destruct (ends_handle resp w1) as (r2 & w2 & E2).
    destruct (handle_clock _ _ _ _ E2) as [Hc2 Ht2].
    unfold bind at 1. rewrite E2.
    destruct r2 as [[]|e].
    2:{ eexists _, _. split; [reflexivity|]. lia. }
    destruct (IH f w2) as (r & w' & E & Ht).
    + rewrite Hc2, Hc1, Ht2, Ht1. now rewrite Nat.add_succ_r in Hlate.
    + lia.
    + exists r, w'. split; [exact E | lia].
Qed.

End Deadline.

(** X9. [main] always comes to an end once the clock passes the deadline,
    whatever the subprocess has sent before it closed its output (nothing,
    garbage, any number of messages the loop passes over): if the reading
    number [k + 1] after the start is 5 or more past it, the run ends
    after at most [k + 2] readings of the clock.  It never returns
    normally: it ends with an exception, and the exit status is 0 or 1.
    The stream is a finite one here: a read at its end returns nothing, it
    does not wait. *)
Theorem main_ends_by_deadline (out : bytes) (clk : nat -> Q) (k fuel : nat) :
  Qltb (clk (S k) - clk O) 5 = false ->
  (k < fuel)%nat ->
  exists e w,
    main fuel (initial out clk) = Some (Raise e, w) /\
    (exit_status (@Raise unit e) = 0 \/ exit_status (@Raise unit e) = 1) /\
    (ticks w <= S (S k))%nat.
Proof.
  intros Hlate Hfuel. rewrite main_run.
  destruct (read_response_ends (mkWorld out clk 0 greeting)) as (r1 & w1 & E1).
  destruct (read_response_clock _ _ _ E1) as [Hc1 Ht1]. cbn [clock ticks] in Hc1, Ht1.
  rewrite E1. destruct r1 as [reply|e].
  - destruct (wait_loop_ends (clock w1 (ticks w1)) k fuel (opened reply w1))
      as (r & w' & E & Ht).
    + unfold opened, tick, emit. cbn [clock ticks]. now rewrite Hc1, Ht1.
    + exact Hfuel.
    + unfold opened, tick, emit in Ht. cbn [clock ticks] in Ht. rewrite Ht1 in Ht.
      unfold bind. rewrite E. destruct r as [[]|e].
      * rewrite report_timeout_run. eexists _, _. split; [reflexivity|].
        split; [now right|]. unfold emit. cbn [ticks]. lia.
      * exists e, w'. split; [reflexivity|]. split; [|lia].
        destruct e; try (now right). cbn [exit_status].
        apply wait_loop_exit in E as (v1 & v2 & resp & _ & Hh).
        apply handle_exit in Hh as [(Hc & _)|(Hc & _)]; auto.
  - exists e, w1. split; [reflexivity|]. split; [|lia].
    pose proof (quiet_read_response _ _ _ E1) as X.
    destruct e; now right.
Qed.

Lemma main_ends_by_deadline_witness :
  let clk := fun n : nat => (inject_Z (Z.of_nat n) * 3)%Q in
  exists e w,
    main 2 (initial (lit "Content-Length: 2" ++ CRLF ++ CRLF ++ lit "{}" ++ lit "noise") clk)
    = Some (Raise e, w) /\
    (exit_status (@Raise unit e) = 0 \/ exit_status (@Raise unit e) = 1) /\
    (ticks w <= S (S 1))%nat.
Proof.
  intros clk.
  apply (main_ends_by_deadline
           (lit "Content-Length: 2" ++ CRLF ++ CRLF ++ lit "{}" ++ lit "noise") clk 1 2).
  - reflexivity.
  - lia.
Defined.

(** ** What [main] writes and reads *)

Section Wire.

Lemma written_app (a b : list event) : written (a ++ b) = written a ++ written b.
Proof. unfold written. apply flat_map_app. Qed.

Lemma written_none (p : event -> bool) (evs : list event) :
  (forall e, p e = true -> is_write e = false) ->
  forallb p evs = true -> written evs = [].
Proof.
  intros Hp. induction evs as [|e evs IH]; [reflexivity|].
  cbn [forallb]. intros H. apply andb_true_iff in H as [He H].
  unfold written in *. cbn [flat_map]. rewrite (IH H), app_nil_r.
  specialize (Hp e He). now destruct e.
Qed.

Lemma is_read_not_write (e : event) : is_read e = true -> is_write e = false.
Proof. now destruct e. Qed.

Lemma is_loop_event_not_write (e : event) : is_loop_event e = true -> is_write e = false.
Proof. now destruct e. Qed.

Lemma keeps_loop_and_report (fuel : nat) (start : Q) :
  keeps is_loop_event (wait_loop fuel start ;; report_timeout).
Proof.
  apply keeps_bind; [apply keeps_wait_loop|]. intros _. apply keeps_report_timeout.
Qed.

End Wire.



(** ** A whole session *)

Section Session.

Variable start : Q.
Variable clk : nat -> Q.

(** The turns that receive messages the loop passes over: one message a
    turn, the rest of the stream untouched. *)
Lemma wait_loop_skip :
  forall msgs fuel tk tr rest,
    forallb value_ok msgs = true ->
    forallb passed_over msgs = true ->
    (forall i, (i < List.length msgs)%nat -> Qltb (clk (tk + i)%nat - start) 5 = true) ->
    exists tr',
      wait_loop (List.length msgs + fuel) start
        (mkWorld (flat_map frame_of msgs ++ rest) clk tk tr) =
      wait_loop fuel start (mkWorld rest clk (tk + List.length msgs) (tr ++ tr')).
Proof.
  induction msgs as [|m msgs IH]; intros fuel tk tr rest Hok Hpass Hbefore.
  - exists []. cbn [List.length flat_map app Nat.add].
    now rewrite Nat.add_0_r, app_nil_r.
  - cbn [forallb] in Hok, Hpass.
    apply andb_true_iff in Hok as [Hm Hok]. apply andb_true_iff in Hpass as [Hpm Hpass].
    cbn [List.length Nat.add flat_map]. rewrite wait_loop_turn. cbn [clock ticks].
    pose proof (Hbefore O ltac:(cbn [List.length]; lia)) as H0.
    rewrite Nat.add_0_r in H0. rewrite H0.
    assert (Hbefore' : forall i, (i < List.length msgs)%nat ->
                                 Qltb (clk (S tk + i)%nat - start) 5 = true).
    { intros i Hi. specialize (Hbefore (S i) ltac:(cbn [List.length]; lia)).
      now rewrite Nat.add_succ_r in Hbefore. }
    unfold tick. cbn [stdout clock ticks trace].
    rewrite <- app_assoc. change (frame_of m) with (frame (dumps m)).
    unfold bind at 1. rewrite read_response_frame, decode_body_dumps by assumption.
    unfold bind at 1.
    match goal with
    | |- context [handle m ?w] => destruct (handle_passed_over m w Hpm) as [E|E]; rewrite E
    end.
    + match goal with
      | |- context [wait_loop _ start (mkWorld _ clk (S tk) ?t)] =>
          destruct (IH fuel (S tk) t rest Hok Hpass Hbefore') as (tr' & Hrun)
      end.
      rewrite Hrun. eexists. rewrite Nat.add_succ_r, <- !app_assoc. reflexivity.
    + unfold emit. cbn [stdout clock ticks trace].
      match goal with
      | |- context [wait_loop _ start (mkWorld _ clk (S tk) ?t)] =>
          destruct (IH fuel (S tk) t rest Hok Hpass Hbefore') as (tr' & Hrun)
      end.
      rewrite Hrun. eexists. rewrite Nat.add_succ_r, <- !app_assoc. reflexivity.
Qed.

(** The turn that receives a diagnostics notification with a first
    entry. *)
Lemma wait_loop_verdict (k tk : nat) (tr : list event) (rest : bytes)
      (note : value) (msg : str) :
  value_ok note = true ->
  notification msg note ->
  Qltb (clk tk - start) 5 = true ->
  exists tr',
    wait_loop (S k) start (mkWorld (frame_of note ++ rest) clk tk tr) =
    Some (Raise (SystemExit (if substring expected_text msg then 0 else 1)),
          mkWorld rest clk (S tk)
            (tr ++ tr' ++
             [receipt note;
              if substring expected_text msg
              then success_report else mismatch_report (VStr msg);
              Terminate])).
Proof.
  intros Hok (d & p & e & more & -> & Hm & Hp & Hd & Hmsg) Htime.
  rewrite wait_loop_turn. cbn [clock ticks]. rewrite Htime.
  unfold tick. cbn [stdout clock ticks trace].
  change (frame_of (VDict d)) with (frame (dumps (VDict d))).
  unfold bind at 1. rewrite read_response_frame, decode_body_dumps by assumption.
  unfold bind at 1. rewrite (handle_notification d p _ _ Hm Hp Hd).
  cbn [py_len]. rewrite bind_lift_ok.
  rewrite length_cons_positive.
  cbn [getitem_0]. rewrite bind_lift_ok.
  unfold getitem_str. rewrite Hmsg. rewrite bind_lift_ok.
  cbn [contains_str]. rewrite bind_lift_ok.
  exists [Time (clk tk);
          Readline (field_line (length_field (Z.of_nat (List.length (dumps (VDict d))))));
          Readline CRLF;
          Read (Z.of_nat (List.length (dumps (VDict d)))) (dumps (VDict d))].
  unfold receipt, success_report, mismatch_report.
  destruct (substring expected_text msg);
    unfold bind, print, terminate, sys_exit, raise, emit; cbn [stdout clock ticks trace];
    rewrite <- !app_assoc; do 2 f_equal.
Qed.

End Session.



(** X12. A message that is not a JSON object never gives a verdict.  The
    loop body either passes it over or fails with [TypeError] in its very
    first test, [resp and 'method' in resp and resp['method'] == ...]: it
    fails on [true], on a number other than 0, on a string in which
    [method] occurs and on a list that holds the string [method], and
    passes over every other one.  In both cases nothing is printed and
    [terminate] is not called. *)
Theorem message_not_an_object (resp : value) (w : world) :
  (forall d, resp <> VDict d) ->
  handle resp w = Some (if breaks resp then Raise TypeError else Ok tt, w).
Proof.
  intros Hno. destruct resp as [ |b|n|t|l|d]; [| | | | |now destruct (Hno d)].
  - reflexivity.
  - destruct b; reflexivity.
  - unfold handle, is_publish. cbn [truthy breaks].
    destruct (n =? 0); reflexivity.
  - destruct t as [|c t]; [reflexivity|].
    unfold handle, is_publish. cbn [truthy breaks contains_str rbind].
    destruct (substring (lit "method") (c :: t)); reflexivity.
  - destruct l as [|x l]; [reflexivity|].
    unfold handle, is_publish. cbn [truthy breaks contains_str rbind].
    destruct (existsb (fun x0 => eq_str x0 (lit "method")) (x :: l)); reflexivity.
Qed.

Lemma message_not_an_object_witness :
  handle (VList [VInt 1; VStr (lit "method")]) (initial [] (fun _ => 0%Q)) =
  Some (if breaks (VList [VInt 1; VStr (lit "method")]) then Raise TypeError else Ok tt,
        initial [] (fun _ => 0%Q)).
Proof.
  apply (message_not_an_object (VList [VInt 1; VStr (lit "method")])
           (initial [] (fun _ => 0%Q))).
  intros d. discriminate.
Defined.
